(** * Blogging platform API: the in-memory store and its HTTP handler

    A shallow embedding of the Go packages [model], [database] and [handler]
    of the repository, and of the few functions of Go's standard library
    they call ([strings.TrimPrefix], [strings.Contains], [strings.ToLower],
    [strconv.ParseInt], the [%d] verb of [fmt]).

    Conventions.
    - A Go [string] is a sequence of bytes: Rocq's [string] of [ascii].
    - [int64] is [Z] with the wrap-around written out ([wrap64]).
    - [map[int64]*model.Post] is a [gmap Z Post].  The handler allocates a
      fresh [Post] for each request and never writes to it after the store
      call, so a stored pointer is represented by the record it points to.
    - [time.Now().UTC()] reads a wall clock: the clock is a function from
      the number of readings taken so far to an instant (nanoseconds, [Z]),
      and the state counts the readings.
    - A Go result [(T, error)] is a [result T]; an [error] is its message. *)

From Stdlib Require Import ZArith String Ascii DecimalString.
From stdpp Require Import gmap strings list fin_maps sorting.

Open Scope Z_scope.

#[local] Arguments String.append !s1 s2 : simpl nomatch.

(** ** Bytes and byte strings *)

Definition byte_val (c : ascii) : Z := Z.of_N (N_of_ascii c).

Definition byte_of (z : Z) : ascii := ascii_of_N (Z.to_N z).

(** The double quote and the line feed, which a literal cannot hold. *)
Definition dquote : string := String (byte_of 34) EmptyString.
Definition newline : string := String (byte_of 10) EmptyString.

Fixpoint string_map (f : ascii -> ascii) (s : string) : string :=
  match s with
  | EmptyString => EmptyString
  | String c s' => String (f c) (string_map f s')
  end.

Fixpoint string_forallb (f : ascii -> bool) (s : string) : bool :=
  match s with
  | EmptyString => true
  | String c s' => f c && string_forallb f s'
  end.

Fixpoint string_existsb (f : ascii -> bool) (s : string) : bool :=
  match s with
  | EmptyString => false
  | String c s' => f c || string_existsb f s'
  end.

(** ** Package [strings] of the standard library *)

Module strings.

(** [strings.HasPrefix(s, prefix)]. *)
Definition HasPrefix (s prefix : string) : bool := String.prefix prefix s.

(** [s[n:]] for [n <= len(s)]. *)
Fixpoint drop_bytes (n : nat) (s : string) : string :=
  match n, s with
  | O, _ => s
  | S n', String _ s' => drop_bytes n' s'
  | S _, EmptyString => EmptyString
  end.

(** [strings.TrimPrefix(s, prefix)]: [s] without the leading [prefix],
    and [s] itself when it does not start with [prefix]. *)
Definition TrimPrefix (s prefix : string) : string :=
  if HasPrefix s prefix then drop_bytes (String.length prefix) s else s.

(** [strings.Contains(s, substr)]: [substr] occurs at some index of [s]. *)
Fixpoint Contains (s substr : string) : bool :=
  HasPrefix s substr ||
  match s with
  | EmptyString => false
  | String _ s' => Contains s' substr
  end.

(** [utf8.RuneSelf]: bytes below it are single-byte runes. *)
Definition RuneSelf : Z := 128.

Definition isASCII (s : string) : bool :=
  string_forallb (fun c => byte_val c <? RuneSelf) s.

Definition isUpperByte (c : ascii) : bool :=
  (65 <=? byte_val c) && (byte_val c <=? 90).

Definition hasUpper (s : string) : bool := string_existsb isUpperByte s.

(** [c += 'a' - 'A'] for an upper-case ASCII letter. *)
Definition lowerByte (c : ascii) : ascii :=
  if isUpperByte c then byte_of (byte_val c + 32) else c.

Section ToLower.

(** [strings.Map(unicode.ToLower, s)], the branch of [ToLower] taken by a
    string that holds a byte outside ASCII; it depends on the Unicode
    tables of the Go runtime. *)
Variable mapUnicodeToLower : string -> string.

(** [strings.ToLower(s)]: an ASCII-only string is lowered byte by byte
    (and returned as it is when it has no upper-case letter). *)
Definition ToLower (s : string) : string :=
  if isASCII s then
    if hasUpper s then string_map lowerByte s else s
  else mapUnicodeToLower s.

End ToLower.

End strings.

(** ** Package [strconv] of the standard library *)

Module strconv.

Inductive NumError : Type := ErrSyntax | ErrRange.

Definition maxUint64 : Z := 2 ^ 64 - 1.

(** The smallest number such that [cutoff * 10 > maxUint64]. *)
Definition cutoff10 : Z := maxUint64 / 10 + 1.

(** [lower(c)] of strconv: [c | ('x' - 'X')]. *)
Definition lower (c : ascii) : Z := Z.lor (byte_val c) 32.

(** The loop of [ParseUint(s, 10, 64)] over the bytes of [s], with the
    accumulator [n] a [uint64]. *)
Fixpoint parseUintLoop (s : string) (n : Z) : Z + NumError :=
  match s with
  | EmptyString => inl n
  | String c s' =>
      let b := byte_val c in
      let digit :=
        if (48 <=? b) && (b <=? 57) then Some (b - 48)
        else if (97 <=? lower c) && (lower c <=? 122)
             then Some (lower c - 97 + 10)
             else None in
      match digit with
      | None => inr ErrSyntax
      | Some d =>
          if 10 <=? d then inr ErrSyntax
          else if cutoff10 <=? n then inr ErrRange
          else
            let n10 := (n * 10) mod 2 ^ 64 in
            let n1 := (n10 + d) mod 2 ^ 64 in
            if (n1 <? n10) || (maxUint64 <? n1) then inr ErrRange
            else parseUintLoop s' n1
      end
  end.

(** [strconv.ParseUint(s, 10, 64)]. *)
Definition ParseUint (s : string) : Z + NumError :=
  match s with
  | EmptyString => inr ErrSyntax
  | _ => parseUintLoop s 0
  end.

(** [strconv.ParseInt(s, 10, 64)]: the value, or the error. *)
Definition ParseInt (s : string) : Z + NumError :=
  match s with
  | EmptyString => inr ErrSyntax
  | String c0 rest =>
      let '(neg, s1) :=
        if Ascii.eqb c0 "+" then (false, rest)
        else if Ascii.eqb c0 "-" then (true, rest)
        else (false, s) in
      match ParseUint s1 with
      | inr ErrSyntax => inr ErrSyntax
      | r =>
          let un := match r with inl u => u | inr _ => maxUint64 end in
          let cutoff := 2 ^ 63 in
          if negb neg && (cutoff <=? un) then inr ErrRange
          else if neg && (cutoff <? un) then inr ErrRange
          else inl (if neg then - un else un)
      end
  end.

(** The [%d] verb of [fmt] on an [int64]: the decimal digits, with a
    leading minus sign for a negative number. *)
Definition FormatInt (i : Z) : string := NilZero.string_of_int (Z.to_int i).

End strconv.

(** ** Results, and a state monad for the code that mutates the store *)

Inductive result (A : Type) : Type :=
| Ok (a : A)
| Err (msg : string).

Arguments Ok {A} a.
Arguments Err {A} msg.

Definition isOk {A} (r : result A) : bool :=
  match r with Ok _ => true | Err _ => false end.

Definition M (S A : Type) : Type := S -> A * S.

Definition ret {S A} (a : A) : M S A := fun s => (a, s).

Definition bind {S A B} (c : M S A) (k : A -> M S B) : M S B :=
  fun s => let '(a, s') := c s in k a s'.

Definition get {S} : M S S := fun s => (s, s).

Definition put {S} (s : S) : M S unit := fun _ => (tt, s).

Declare Scope monad_scope.
Delimit Scope monad_scope with monad.
Notation "x <- c ;; k" := (bind c (fun x => k))
  (at level 100, c at next level, right associativity) : monad_scope.
Notation "c ;;; k" := (bind c (fun _ => k))
  (at level 100, right associativity) : monad_scope.

(** ** Package [model] *)

Module model.

(** An instant, in nanoseconds of wall-clock time (UTC). *)
Definition Time : Type := Z.

(** [model.Post]. *)
Record Post : Type := mkPost {
  ID : Z;
  Title : string;
  Content : string;
  Category : string;
  Tags : list string;
  CreatedAt : Time;
  UpdatedAt : Time
}.

End model.

Export model.

(** ** Machine integers *)

Definition minInt64 : Z := - 2 ^ 63.
Definition maxInt64 : Z := 2 ^ 63 - 1.

(** The value of an [int64] computation whose exact result is [z]. *)
Definition wrap64 (z : Z) : Z := (z + 2 ^ 63) mod 2 ^ 64 - 2 ^ 63.

(** ** Package [database] *)

Module database.

(** [database.Store]: what the handler asks of a store.  [S] is the state
    the operations read and write. *)
Class Store (S : Type) : Type := {
  CreatePost : Post -> M S (result Z);
  GetPost : Z -> M S (result Post);
  GetAllPosts : string -> M S (result (list Post));
  UpdatePost : Z -> Post -> M S (result Post);
  DeletePost : Z -> M S (result unit)
}.

(** [database.MemoryStore], without its lock. *)
Record MemoryStore : Type := mkStore {
  posts : gmap Z Post;
  nextID : Z
}.

(** The store together with the number of clock readings taken so far. *)
Record World : Type := mkWorld {
  store : MemoryStore;
  ticks : nat
}.

(** [NewMemoryStore()]. *)
Definition NewMemoryStore : MemoryStore := {| posts := ∅; nextID := 1 |}.

Definition NewWorld : World := {| store := NewMemoryStore; ticks := 0 |}.

(** [fmt.Errorf("post with id %d not found", id)]. *)
Definition notFound (id : Z) : string :=
  "post with id " +:+ strconv.FormatInt id +:+ " not found".

Section MemoryStore.

Open Scope monad_scope.

(** The wall clock: the instant returned by the [n]-th reading. *)
Variable clock : nat -> Time.

(** See [strings.ToLower]. *)
Variable mapUnicodeToLower : string -> string.

Local Abbreviation ToLower := (strings.ToLower mapUnicodeToLower).

(** [time.Now().UTC()]. *)
Definition timeNow : M World Time :=
  fun w => (clock (ticks w), {| store := store w; ticks := S (ticks w) |}).

Definition getStore : M World MemoryStore := fun w => (store w, w).

Definition putStore (s : MemoryStore) : M World unit :=
  fun w => (tt, {| store := s; ticks := ticks w |}).

(** [MemoryStore.CreatePost], called with a pointer to a post that the store
    does not hold, as the handler does with the [model.Post] it declares for
    each request: the store is shown as the posts its pointers lead to.
    [pointers.CreatePost] below is the operation on the pointers themselves,
    for any caller. *)
Definition MemoryStore_CreatePost (post : Post) : M World (result Z) :=
  s <- getStore ;;
  let id := nextID s in
  created <- timeNow ;;
  updated <- timeNow ;;
  let post' :=
    {| ID := id; Title := Title post; Content := Content post;
       Category := Category post; Tags := Tags post;
       CreatedAt := created; UpdatedAt := updated |} in
  putStore {| posts := <[id := post']> (posts s);
              nextID := wrap64 (nextID s + 1) |} ;;;
  ret (Ok id).

(** [MemoryStore.GetPost]. *)
Definition MemoryStore_GetPost (id : Z) : M World (result Post) :=
  s <- getStore ;;
  match posts s !! id with
  | None => ret (Err (notFound id))
  | Some post => ret (Ok post)
  end.

(** The condition of the loop of [GetAllPosts]. *)
Definition matches (term : string) (post : Post) : bool :=
  let lowerTerm := ToLower term in
  String.eqb term "" ||
  strings.Contains (ToLower (Title post)) lowerTerm ||
  strings.Contains (ToLower (Content post)) lowerTerm ||
  strings.Contains (ToLower (Category post)) lowerTerm.

(** The loop of [GetAllPosts], over the entries of the map in the order
    [entries] in which [range] happens to visit them. *)
Definition collect (term : string) (entries : list (Z * Post)) : list Post :=
  fold_left
    (fun acc e => if matches term e.2 then acc ++ [e.2] else acc)
    entries [].

(** [MemoryStore.GetAllPosts], visiting the map in the order [order]
    chooses. *)
Definition GetAllPosts_in (order : gmap Z Post -> list (Z * Post))
    (term : string) : M World (result (list Post)) :=
  s <- getStore ;;
  ret (Ok (collect term (order (posts s)))).

Definition MemoryStore_GetAllPosts (term : string)
    : M World (result (list Post)) :=
  GetAllPosts_in map_to_list term.

(** [MemoryStore.UpdatePost]. *)
Definition MemoryStore_UpdatePost (id : Z) (post : Post)
    : M World (result Post) :=
  s <- getStore ;;
  match posts s !! id with
  | None => ret (Err (notFound id))
  | Some existingPost =>
      updated <- timeNow ;;
      let existingPost' :=
        {| ID := ID existingPost; Title := Title post;
           Content := Content post; Category := Category post;
           Tags := Tags post; CreatedAt := CreatedAt existingPost;
           UpdatedAt := updated |} in
      putStore {| posts := <[id := existingPost']> (posts s);
                  nextID := nextID s |} ;;;
      ret (Ok existingPost')
  end.

(** [MemoryStore.DeletePost]. *)
Definition MemoryStore_DeletePost (id : Z) : M World (result unit) :=
  s <- getStore ;;
  match posts s !! id with
  | None => ret (Err (notFound id))
  | Some _ =>
      putStore {| posts := delete id (posts s); nextID := nextID s |} ;;;
      ret (Ok tt)
  end.

(** [MemoryStore] implements [Store]. *)
#[export] Instance MemoryStore_Store : Store World := {
  CreatePost := MemoryStore_CreatePost;
  GetPost := MemoryStore_GetPost;
  GetAllPosts := MemoryStore_GetAllPosts;
  UpdatePost := MemoryStore_UpdatePost;
  DeletePost := MemoryStore_DeletePost
}.

(** *** Sequences of store operations *)

Inductive Op : Type :=
| OpCreate (draft : Post)
| OpGet (id : Z)
| OpList (term : string)
| OpUpdate (id : Z) (draft : Post)
| OpDelete (id : Z).

Inductive Outcome : Type :=
| Created (r : result Z)
| Got (r : result Post)
| Listed (r : result (list Post))
| Updated (r : result Post)
| Deleted (r : result unit).

Definition step (op : Op) : M World Outcome :=
  match op with
  | OpCreate d => r <- MemoryStore_CreatePost d ;; ret (Created r)
  | OpGet id => r <- MemoryStore_GetPost id ;; ret (Got r)
  | OpList term => r <- MemoryStore_GetAllPosts term ;; ret (Listed r)
  | OpUpdate id d => r <- MemoryStore_UpdatePost id d ;; ret (Updated r)
  | OpDelete id => r <- MemoryStore_DeletePost id ;; ret (Deleted r)
  end.

Fixpoint run (ops : list Op) : M World (list Outcome) :=
  match ops with
  | [] => ret []
  | op :: ops' => o <- step op ;; os <- run ops' ;; ret (o :: os)
  end.

(** The identifiers the create calls of a run returned, in order. *)
Fixpoint createdIDs (os : list Outcome) : list Z :=
  match os with
  | [] => []
  | Created (Ok id) :: os' => id :: createdIDs os'
  | _ :: os' => createdIDs os'
  end.

Definition isCreate (op : Op) : bool :=
  match op with OpCreate _ => true | _ => false end.

(** How many create calls a sequence of operations makes. *)
Definition creates (ops : list Op) : nat := length (filter isCreate ops).

End MemoryStore.

End database.

(** ** Package [handler] *)

Module handler.

Import database.

(** The parts of an [*http.Request] the handler reads: the method, the
    path of the URL, the parsed query ([url.Values]) and the body. *)
Record Request : Type := mkRequest {
  Method : string;
  Path : string;
  Query : gmap string (list string);
  Body : string
}.

(** What is written to the [http.ResponseWriter] after the header: a text,
    the JSON encoding of a post or of a sequence of posts, or nothing. *)
Inductive Payload : Type :=
| Text (s : string)
| JSONPost (p : Post)
| JSONPosts (ps : list Post)
| Empty.

Record Response : Type := mkResponse {
  StatusCode : Z;
  ContentType : string;
  Written : Payload
}.

Definition MethodGet : string := "GET".
Definition MethodPost : string := "POST".
Definition MethodPut : string := "PUT".
Definition MethodDelete : string := "DELETE".

Definition StatusOK : Z := 200.
Definition StatusCreated : Z := 201.
Definition StatusNoContent : Z := 204.
Definition StatusBadRequest : Z := 400.
Definition StatusNotFound : Z := 404.
Definition StatusMethodNotAllowed : Z := 405.
Definition StatusInternalServerError : Z := 500.

(** [http.Error(w, error, code)]: a plain-text response, the message
    followed by a line feed. *)
Definition http_Error (error : string) (code : Z) : Response :=
  {| StatusCode := code;
     ContentType := "text/plain; charset=utf-8";
     Written := Text (error +:+ newline) |}.

(** The content type set, the header written, the value encoded. *)
Definition writeJSON (code : Z) (v : Payload) : Response :=
  {| StatusCode := code; ContentType := "application/json"; Written := v |}.

(** [url.Values.Get(key)]: the first value of [key], or the empty string. *)
Definition Values_Get (v : gmap string (list string)) (key : string) : string :=
  match v !! key with
  | Some (x :: _) => x
  | _ => ""
  end.

(** The body of the validation error: an object with the key [error]. *)
Definition requiredMessage : string :=
  "{" +:+ dquote +:+ "error" +:+ dquote +:+ ": " +:+ dquote +:+
  "title and content are required" +:+ dquote +:+ "}".

Section PostHandler.

Open Scope monad_scope.

(** [PostHandler.Store]: any implementation of the interface. *)
Context {S : Type} {Store_S : Store S}.

(** [json.NewDecoder(r.Body).Decode(&post)] on a zero [model.Post]: the
    decoded post, or [None] when the decoder reports an error. *)
Variable jsonDecode : string -> option Post.

(** [PostHandler.CreatePost], POST /posts, when no other request reaches the
    store between its two calls.  [CreatePost_between] below has what other
    requests do between them. *)
Definition CreatePost (r : Request) : M S Response :=
  match jsonDecode (Body r) with
  | None => ret (http_Error "Invalid request body" StatusBadRequest)
  | Some post =>
      if String.eqb (Title post) "" || String.eqb (Content post) ""
      then ret (http_Error requiredMessage StatusBadRequest)
      else
        created <- database.CreatePost post ;;
        match created with
        | Err _ =>
            ret (http_Error "Failed to create post" StatusInternalServerError)
        | Ok id =>
            got <- database.GetPost id ;;
            match got with
            | Err _ =>
                ret (http_Error "Failed to retrieve created post"
                       StatusInternalServerError)
            | Ok createdPost => ret (writeJSON StatusCreated (JSONPost createdPost))
            end
        end
  end.

(** [PostHandler.GetAllPosts], GET /posts. *)
Definition GetAllPosts (r : Request) : M S Response :=
  let term := Values_Get (Query r) "term" in
  listed <- database.GetAllPosts term ;;
  match listed with
  | Err _ => ret (http_Error "Failed to get posts" StatusInternalServerError)
  | Ok posts => ret (writeJSON StatusOK (JSONPosts posts))
  end.

(** [PostHandler.GetPost], GET /posts/{id}. *)
Definition GetPost (r : Request) (id : Z) : M S Response :=
  got <- database.GetPost id ;;
  match got with
  | Err _ =>
      ret (http_Error
             ("Post with id " +:+ strconv.FormatInt id +:+ " not found")
             StatusNotFound)
  | Ok post => ret (writeJSON StatusOK (JSONPost post))
  end.

(** [PostHandler.UpdatePost], PUT /posts/{id}. *)
Definition UpdatePost (r : Request) (id : Z) : M S Response :=
  match jsonDecode (Body r) with
  | None => ret (http_Error "Invalid request body" StatusBadRequest)
  | Some post =>
      if String.eqb (Title post) "" || String.eqb (Content post) ""
      then ret (http_Error requiredMessage StatusBadRequest)
      else
        updated <- database.UpdatePost id post ;;
        match updated with
        | Err msg =>
            if strings.Contains msg "not found"
            then ret (http_Error msg StatusNotFound)
            else ret (http_Error "Failed to update post"
                        StatusInternalServerError)
        | Ok updatedPost => ret (writeJSON StatusOK (JSONPost updatedPost))
        end
  end.

(** [PostHandler.DeletePost], DELETE /posts/{id}. *)
Definition DeletePost (r : Request) (id : Z) : M S Response :=
  deleted <- database.DeletePost id ;;
  match deleted with
  | Err msg =>
      if strings.Contains msg "not found"
      then ret (http_Error msg StatusNotFound)
      else ret (http_Error "Failed to delete post" StatusInternalServerError)
  | Ok _ =>
      ret {| StatusCode := StatusNoContent; ContentType := "";
             Written := Empty |}
  end.

(** The branch of [ServeHTTP] for an empty [idStr]. *)
Definition collectionRoute (r : Request) : M S Response :=
  if String.eqb (Method r) MethodGet then GetAllPosts r
  else if String.eqb (Method r) MethodPost then CreatePost r
  else ret (http_Error "Method not allowed" StatusMethodNotAllowed).

(** The [switch] of [ServeHTTP] once [idStr] has parsed to [id]. *)
Definition itemRoute (r : Request) (id : Z) : M S Response :=
  if String.eqb (Method r) MethodGet then GetPost r id
  else if String.eqb (Method r) MethodPut then UpdatePost r id
  else if String.eqb (Method r) MethodDelete then DeletePost r id
  else ret (http_Error "Method not allowed" StatusMethodNotAllowed).

(** [PostHandler.ServeHTTP]. *)
Definition ServeHTTP (r : Request) : M S Response :=
  let idStr := strings.TrimPrefix (Path r) "/posts/" in
  if String.eqb idStr "" then collectionRoute r
  else
    match strconv.ParseInt idStr with
    | inr _ => ret (http_Error "Invalid post ID" StatusBadRequest)
    | inl id => itemRoute r id
    end.

End PostHandler.

End handler.

(** ** Notions the properties are stated with *)

(** *** Decimal numerals *)

Definition isDigit (c : ascii) : bool :=
  (48 <=? byte_val c) && (byte_val c <=? 57).

(** The number a string of decimal digits denotes after the digits that
    denote [acc]; [None] when a byte is not a digit. *)
Fixpoint digitsValue (acc : Z) (s : string) : option Z :=
  match s with
  | EmptyString => Some acc
  | String c s' =>
      if isDigit c then digitsValue (acc * 10 + (byte_val c - 48)) s'
      else None
  end.

(** A non-empty string of digits. *)
Definition unsignedValue (s : string) : option Z :=
  match s with
  | EmptyString => None
  | _ => digitsValue 0 s
  end.

(** A decimal numeral: an optional sign and a non-empty string of digits. *)
Definition numeralValue (s : string) : option Z :=
  match s with
  | EmptyString => None
  | String c rest =>
      if Ascii.eqb c "+" then unsignedValue rest
      else if Ascii.eqb c "-" then Z.opp <$> unsignedValue rest
      else unsignedValue s
  end.

(** The token is a numeral of the 64-bit integer [z]. *)
Definition denotesInt64 (tok : string) (z : Z) : Prop :=
  numeralValue tok = Some z /\ minInt64 <= z <= maxInt64.

(** The token parses as a non-negative 64-bit integer. *)
Definition denotesNonNegativeInt64 (tok : string) : Prop :=
  exists z, numeralValue tok = Some z /\ 0 <= z <= maxInt64.

(** *** Substrings, with and without case *)

(** [sub] occurs in [s]. *)
Definition occursIn (sub s : string) : Prop :=
  exists pre post, s = pre +:+ sub +:+ post.

(** [term] occurs in [text] once both are lowered with [strings.ToLower]. *)
Definition caseInsensitiveSubstring (mapUnicodeToLower : string -> string)
    (term text : string) : Prop :=
  occursIn (strings.ToLower mapUnicodeToLower term)
           (strings.ToLower mapUnicodeToLower text).

(** Two bytes that are equal, or the two cases of one ASCII letter. *)
Definition sameLetter (c d : ascii) : Prop :=
  c = d \/
  (strings.isUpperByte c = true /\ byte_val d = byte_val c + 32) \/
  (strings.isUpperByte d = true /\ byte_val c = byte_val d + 32).

(** Two strings that differ in the case of ASCII letters only. *)
Inductive equalFold : string -> string -> Prop :=
| equalFold_nil : equalFold EmptyString EmptyString
| equalFold_cons c d s t :
    sameLetter c d -> equalFold s t -> equalFold (String c s) (String d t).

(** Some substring of [text] is [term] up to the case of its letters. *)
Definition occursIgnoringCase (term text : string) : Prop :=
  exists pre mid post, text = pre +:+ mid +:+ post /\ equalFold mid term.

(** What the search of the store keeps: the posts one of whose three text
    fields holds the term, whatever the case; every post for the empty term. *)
Definition selected (mapUnicodeToLower : string -> string)
    (term : string) (p : Post) : Prop :=
  term = "" \/
  caseInsensitiveSubstring mapUnicodeToLower term (Title p) \/
  caseInsensitiveSubstring mapUnicodeToLower term (Content p) \/
  caseInsensitiveSubstring mapUnicodeToLower term (Category p).

(** *** Stores whose counter has not wrapped around *)

Section WellFormed.

Import database.

Variable clock : nat -> Time.

(** The counter is a positive [int64] and every live identifier is
    positive and below it. *)
Definition idsBelowCounter (w : World) : Prop :=
  1 <= nextID (store w) <= maxInt64 /\
  forall id, is_Some (posts (store w) !! id) -> 1 <= id < nextID (store w).

(** A post is stored under its own identifier. *)
Definition keyedByID (w : World) : Prop :=
  forall id p, posts (store w) !! id = Some p -> ID p = id.

(** The two instants of a live post are readings the clock has given,
    the creation not after the update. *)
Definition stamped (w : World) : Prop :=
  forall id p, posts (store w) !! id = Some p ->
    exists i j, (i <= j < ticks w)%nat /\
      CreatedAt p = clock i /\ UpdatedAt p = clock j.

Definition wellFormed (w : World) : Prop :=
  idsBelowCounter w /\ keyedByID w /\ stamped w.

(** The clock never runs backwards. *)
Definition monotone : Prop :=
  forall i j, (i <= j)%nat -> clock i <= clock j.

End WellFormed.

(** *** A store that counts its calls *)

(** An operation of a store, with the count of the calls received. *)
Definition counted {St A : Type} (c : M St A) : M (St * nat) A :=
  fun sn => let '(a, s') := c sn.1 in (a, (s', Datatypes.S sn.2)).

(** Around any store, the store that counts the calls of its operations. *)
Definition CountingStore {St : Type} (st : database.Store St)
    : database.Store (St * nat) :=
  {| database.CreatePost post := counted (database.CreatePost post);
     database.GetPost id := counted (database.GetPost id);
     database.GetAllPosts term := counted (database.GetAllPosts term);
     database.UpdatePost id post := counted (database.UpdatePost id post);
     database.DeletePost id := counted (database.DeletePost id) |}.

(** *** Validation of a decoded body *)

(** The message of the 400 response a body earns: none for a body that
    decodes to a post with a title and a content. *)
Definition validationError (decoded : option Post) : option string :=
  match decoded with
  | None => Some "Invalid request body"
  | Some post =>
      if String.eqb (Title post) "" then Some handler.requiredMessage
      else if String.eqb (Content post) "" then Some handler.requiredMessage
      else None
  end.

(** ** Sample inputs *)

(** A clock that advances by one nanosecond between two readings. *)
Definition tickingClock : nat -> Time := fun n => Z.of_nat n.

(** A stand-in for the Unicode branch of [strings.ToLower]; the samples are
    ASCII strings and never reach it. *)
Definition noUnicode : string -> string := fun s => s.

(** A decoder for requests without a body: the decoder of Go reports the end
    of the input as an error. *)
Definition decodeNothing : string -> option Post := fun _ => None.

Definition goBasics : Post :=
  {| ID := 0; Title := "Go Basics"; Content := "intro"; Category := "Tech";
     Tags := []; CreatedAt := 0; UpdatedAt := 0 |}.

Definition cooking : Post :=
  {| ID := 0; Title := "Cooking"; Content := "recipes"; Category := "Food";
     Tags := []; CreatedAt := 0; UpdatedAt := 0 |}.

(** A request without query and without body. *)
Definition bareRequest (method path : string) : handler.Request :=
  {| handler.Method := method; handler.Path := path;
     handler.Query := ∅; handler.Body := "" |}.

(** The store after the two creates of the sample posts. *)
Definition twoPosts : database.World :=
  (database.run tickingClock noUnicode
     [database.OpCreate goBasics; database.OpCreate cooking]
     database.NewWorld).2.

(** ** The mock store of the handler's tests *)

Module handler_test.

Import database.

(** [mockStore]: a map, a counter and, to simulate a failing database, an
    error that every operation returns when it is set. *)
Record mockStore : Type := mkMock {
  posts : gmap Z Post;
  nextID : Z;
  err : option string
}.

(** The mock together with the number of clock readings taken so far. *)
Record MockWorld : Type := mkMockWorld {
  mock : mockStore;
  ticks : nat
}.

(** [newMockStore()]. *)
Definition newMockStore : mockStore := {| posts := ∅; nextID := 1; err := None |}.

Definition newMockWorld : MockWorld := {| mock := newMockStore; ticks := 0 |}.

Section Mock.

Open Scope monad_scope.

Variable clock : nat -> Time.

(** [time.Now().UTC()]. *)
Definition timeNow : M MockWorld Time :=
  fun w => (clock (ticks w), {| mock := mock w; ticks := S (ticks w) |}).

Definition getMock : M MockWorld mockStore := fun w => (mock w, w).

Definition putMock (m : mockStore) : M MockWorld unit :=
  fun w => (tt, {| mock := m; ticks := ticks w |}).

(** [mockStore.CreatePost]. *)
Definition mockStore_CreatePost (post : Post) : M MockWorld (result Z) :=
  m <- getMock ;;
  match err m with
  | Some e => ret (Err e)
  | None =>
      let id := nextID m in
      now <- timeNow ;;
      let post' :=
        {| ID := id; Title := Title post; Content := Content post;
           Category := Category post; Tags := Tags post;
           CreatedAt := now; UpdatedAt := now |} in
      putMock {| posts := <[id := post']> (posts m);
                 nextID := wrap64 (nextID m + 1); err := err m |} ;;;
      ret (Ok id)
  end.

(** [mockStore.GetPost]. *)
Definition mockStore_GetPost (id : Z) : M MockWorld (result Post) :=
  m <- getMock ;;
  match err m with
  | Some e => ret (Err e)
  | None =>
      match posts m !! id with
      | None => ret (Err "not found")
      | Some post => ret (Ok post)
      end
  end.

(** [mockStore.GetAllPosts]: every post, whatever the term, in the order
    [order] in which [range] visits the map. *)
Definition mockStore_GetAllPosts_in (order : gmap Z Post -> list (Z * Post))
    (term : string) : M MockWorld (result (list Post)) :=
  m <- getMock ;;
  match err m with
  | Some e => ret (Err e)
  | None =>
      ret (Ok (fold_left (fun acc e => acc ++ [e.2]) (order (posts m)) []))
  end.

Definition mockStore_GetAllPosts (term : string)
    : M MockWorld (result (list Post)) :=
  mockStore_GetAllPosts_in map_to_list term.

(** [mockStore.UpdatePost]: the draft itself is stored, under the identifier
    and with a new update instant. *)
Definition mockStore_UpdatePost (id : Z) (post : Post)
    : M MockWorld (result Post) :=
  m <- getMock ;;
  match err m with
  | Some e => ret (Err e)
  | None =>
      match posts m !! id with
      | None => ret (Err "not found")
      | Some _ =>
          now <- timeNow ;;
          let post' :=
            {| ID := id; Title := Title post; Content := Content post;
               Category := Category post; Tags := Tags post;
               CreatedAt := CreatedAt post; UpdatedAt := now |} in
          putMock {| posts := <[id := post']> (posts m);
                     nextID := nextID m; err := err m |} ;;;
          ret (Ok post')
      end
  end.

(** [mockStore.DeletePost]. *)
Definition mockStore_DeletePost (id : Z) : M MockWorld (result unit) :=
  m <- getMock ;;
  match err m with
  | Some e => ret (Err e)
  | None =>
      match posts m !! id with
      | None => ret (Err "not found")
      | Some _ =>
          putMock {| posts := delete id (posts m);
                     nextID := nextID m; err := err m |} ;;;
          ret (Ok tt)
      end
  end.

(** [*mockStore] implements [Store]. *)
Definition mockStore_Store : Store MockWorld :=
  {| CreatePost := mockStore_CreatePost;
     GetPost := mockStore_GetPost;
     GetAllPosts := mockStore_GetAllPosts;
     UpdatePost := mockStore_UpdatePost;
     DeletePost := mockStore_DeletePost |}.

End Mock.

End handler_test.

(** ** Further notions *)

(** How many deletes of a run removed a post. *)
Fixpoint deletions (os : list database.Outcome) : nat :=
  match os with
  | [] => 0%nat
  | database.Deleted (Ok _) :: os' => Datatypes.S (deletions os')
  | _ :: os' => deletions os'
  end.

(** The operation is an update or a delete of the identifier. *)
Definition targets (op : database.Op) (id : Z) : Prop :=
  match op with
  | database.OpUpdate id' _ => id' = id
  | database.OpDelete id' => id' = id
  | _ => False
  end.

(** A store whose counter stands at the last [int64]. *)
Definition lastCounter : database.World :=
  {| database.store := {| database.posts := ∅; database.nextID := maxInt64 |};
     database.ticks := 0 |}.

(** A decoder that reads the body as the title and the content of a post;
    it stands for the decoder of Go on a well-formed body. *)
Definition decodeTitle : string -> option Post := fun body =>
  Some {| ID := 0; Title := body; Content := body; Category := "";
          Tags := []; CreatedAt := 0; UpdatedAt := 0 |}.

(** ** The handler's create between other requests *)

(** [PostHandler.CreatePost], with what other requests do to the store
    between its two calls: each call of the store takes and releases the
    lock for itself, so the state the handler reads back is the one
    [between] leaves.  [CreatePost] is the case where nothing comes in
    between. *)
Definition CreatePost_between {St : Type} {Store_St : database.Store St}
    (jsonDecode : string -> option Post) (between : M St unit)
    (r : handler.Request) : M St handler.Response :=
  match jsonDecode (handler.Body r) with
  | None =>
      ret (handler.http_Error "Invalid request body" handler.StatusBadRequest)
  | Some post =>
      if String.eqb (Title post) "" || String.eqb (Content post) ""
      then ret (handler.http_Error handler.requiredMessage
                  handler.StatusBadRequest)
      else
        bind (database.CreatePost post) (fun created =>
        match created with
        | Err _ =>
            ret (handler.http_Error "Failed to create post"
                   handler.StatusInternalServerError)
        | Ok id =>
            bind between (fun _ =>
            bind (database.GetPost id) (fun got =>
            match got with
            | Err _ =>
                ret (handler.http_Error "Failed to retrieve created post"
                       handler.StatusInternalServerError)
            | Ok createdPost =>
                ret (handler.writeJSON handler.StatusCreated
                       (handler.JSONPost createdPost))
            end))
        end)
  end.

(** The result of a store operation dropped: what another request does to
    the store. *)
Definition discard {St A : Type} (c : M St A) : M St unit :=
  bind c (fun _ => ret tt).

(** The statuses of the requests that call the store once. *)
Definition singleCallStatuses : list Z := [200; 204; 400; 404; 405].

(** ** The store with its posts behind pointers *)

Module pointers.

(** The address of a [model.Post]; a nil pointer is no address. *)
Definition loc : Type := positive.

(** [database.MemoryStore] as the code has it: [posts] maps an identifier to
    a pointer.  [heap] gives the post each address holds, and [ticks] counts
    the clock readings. *)
Record Memory : Type := mkMemory {
  heap : loc -> Post;
  posts : gmap Z loc;
  nextID : Z;
  ticks : nat
}.

(** The heap after a write of [p] at the address [l]. *)
Definition writeAt (h : loc -> Post) (l : loc) (p : Post) : loc -> Post :=
  fun l' => if decide (l' = l) then p else h l'.

(** [NewMemoryStore()], in a memory whose posts are [h]. *)
Definition NewMemory (h : loc -> Post) : Memory :=
  {| heap := h; posts := ∅; nextID := 1; ticks := 0 |}.

Section Pointers.

Variable clock : nat -> Time.
Variable mapUnicodeToLower : string -> string.

(** [MemoryStore.CreatePost]: the identifier and the two instants are written
    through the caller's pointer, and that pointer is stored. *)
Definition CreatePost (post : loc) : M Memory (result Z) :=
  fun m =>
    let id := nextID m in
    let written :=
      {| ID := id; Title := Title (heap m post);
         Content := Content (heap m post);
         Category := Category (heap m post); Tags := Tags (heap m post);
         CreatedAt := clock (ticks m);
         UpdatedAt := clock (S (ticks m)) |} in
    (Ok id,
     {| heap := writeAt (heap m) post written;
        posts := <[id := post]> (posts m);
        nextID := wrap64 (nextID m + 1);
        ticks := S (S (ticks m)) |}).

(** [MemoryStore.GetPost]: the stored pointer. *)
Definition GetPost (id : Z) : M Memory (result loc) :=
  fun m =>
    match posts m !! id with
    | None => (Err (database.notFound id), m)
    | Some post => (Ok post, m)
    end.

(** [MemoryStore.GetAllPosts]: the pointers of the posts the condition of the
    loop keeps, visiting the map in the order [order] chooses. *)
Definition GetAllPosts_in (order : gmap Z loc -> list (Z * loc))
    (term : string) : M Memory (result (list loc)) :=
  fun m =>
    (Ok (fold_left
           (fun acc e =>
              if database.matches mapUnicodeToLower term (heap m e.2)
              then acc ++ [e.2] else acc)
           (order (posts m)) []), m).

(** [MemoryStore.UpdatePost]: the four fields are copied from the draft into
    the stored post, the update instant is written, and the stored pointer
    is returned. *)
Definition UpdatePost (id : Z) (post : loc) : M Memory (result loc) :=
  fun m =>
    match posts m !! id with
    | None => (Err (database.notFound id), m)
    | Some existingPost =>
        let written :=
          {| ID := ID (heap m existingPost); Title := Title (heap m post);
             Content := Content (heap m post);
             Category := Category (heap m post); Tags := Tags (heap m post);
             CreatedAt := CreatedAt (heap m existingPost);
             UpdatedAt := clock (ticks m) |} in
        (Ok existingPost,
         {| heap := writeAt (heap m) existingPost written;
            posts := <[id := existingPost]> (posts m);
            nextID := nextID m;
            ticks := S (ticks m) |})
    end.

(** [MemoryStore.DeletePost]. *)
Definition DeletePost (id : Z) : M Memory (result unit) :=
  fun m =>
    match posts m !! id with
    | None => (Err (database.notFound id), m)
    | Some _ =>
        (Ok tt,
         {| heap := heap m; posts := delete id (posts m);
            nextID := nextID m; ticks := ticks m |})
    end.

(** A store operation, with the pointers it is given. *)
Inductive Op : Type :=
| OpCreate (draft : loc)
| OpGet (id : Z)
| OpList (term : string)
| OpUpdate (id : Z) (draft : loc)
| OpDelete (id : Z).

(** The memory an operation leaves. *)
Definition step (op : Op) (m : Memory) : Memory :=
  match op with
  | OpCreate l => (CreatePost l m).2
  | OpGet id => (GetPost id m).2
  | OpList term => (GetAllPosts_in map_to_list term m).2
  | OpUpdate id l => (UpdatePost id l m).2
  | OpDelete id => (DeletePost id m).2
  end.

Fixpoint run (ops : list Op) (m : Memory) : Memory :=
  match ops with
  | [] => m
  | op :: ops' => run ops' (step op m)
  end.

End Pointers.

(** The store an observer sees: each stored pointer replaced by the post it
    points to. *)
Definition view (m : Memory) : database.World :=
  {| database.store :=
       {| database.posts := heap m <$> posts m;
          database.nextID := nextID m |};
     database.ticks := ticks m |}.

(** The operation on posts an operation on pointers amounts to in a memory:
    each draft is the post its pointer holds. *)
Definition viewOp (m : Memory) (op : Op) : database.Op :=
  match op with
  | OpCreate l => database.OpCreate (heap m l)
  | OpGet id => database.OpGet id
  | OpList term => database.OpList term
  | OpUpdate id l => database.OpUpdate id (heap m l)
  | OpDelete id => database.OpDelete id
  end.

(** No pointer is stored under two identifiers. *)
Definition unshared (m : Memory) : Prop :=
  forall id1 id2 l,
    posts m !! id1 = Some l -> posts m !! id2 = Some l -> id1 = id2.

(** The pointer is stored under no identifier. *)
Definition unstored (m : Memory) (l : loc) : Prop :=
  forall id, posts m !! id <> Some l.

(** A create is given a pointer that is not stored, as the handler does with
    the post it declares for each request. *)
Definition freshDraft (m : Memory) (op : Op) : Prop :=
  match op with
  | OpCreate l => unstored m l
  | _ => True
  end.

Section PointerRuns.

Variable clock : nat -> Time.
Variable mapUnicodeToLower : string -> string.

(** Every create of the run is given a pointer that is not stored then. *)
Fixpoint freshDrafts (ops : list Op) (m : Memory) : Prop :=
  match ops with
  | [] => True
  | op :: ops' =>
      freshDraft m op /\
      freshDrafts ops' (step clock mapUnicodeToLower op m)
  end.

(** The operations on posts a run on pointers amounts to. *)
Fixpoint viewOps (ops : list Op) (m : Memory) : list database.Op :=
  match ops with
  | [] => []
  | op :: ops' =>
      viewOp m op :: viewOps ops' (step clock mapUnicodeToLower op m)
  end.

End PointerRuns.

Definition isCreate (op : Op) : bool :=
  match op with OpCreate _ => true | _ => false end.

(** How many create calls a sequence of operations makes. *)
Definition creates (ops : list Op) : nat := length (filter isCreate ops).

End pointers.

(** ** Further sample inputs *)

(** A wall clock that is set back by one nanosecond after its second
    reading. *)
Definition setBackClock : nat -> Time :=
  fun n => if (n <? 2)%nat then 999 else 998.

(** The bytes [FE] and [FF], which occur in no UTF-8 encoding, as strings. *)
Definition byteFE : string := String (byte_of 254) EmptyString.
Definition byteFF : string := String (byte_of 255) EmptyString.

(** A byte that occurs in no UTF-8 encoding: [C0], [C1] and [F5] to [FF]. *)
Definition neverInUTF8 (c : ascii) : bool :=
  (byte_val c =? 192) || (byte_val c =? 193) || (245 <=? byte_val c).

(** The encoding [EF BF BD] of [utf8.RuneError]. *)
Definition runeErrorBytes : string :=
  String (byte_of 239) (String (byte_of 191) (String (byte_of 189) EmptyString)).

(** [strings.Map(unicode.ToLower, s)] on a string made of ASCII bytes and of
    bytes that occur in no UTF-8 encoding: [range] reads each of the latter
    as [utf8.RuneError] of width 1, which [Map] writes as [EF BF BD], and an
    ASCII letter is lowered.  On a string with another byte the result
    depends on the Unicode tables: [None]. *)
Fixpoint mapToLowerOutsideUTF8 (s : string) : option string :=
  match s with
  | EmptyString => Some EmptyString
  | String c s' =>
      match mapToLowerOutsideUTF8 s' with
      | None => None
      | Some t =>
          if byte_val c <? strings.RuneSelf
          then Some (String (strings.lowerByte c) t)
          else if neverInUTF8 c then Some (runeErrorBytes +:+ t)
          else None
      end
  end.

(** The Unicode branch of [strings.ToLower] where the Unicode tables are not
    needed; a string that needs them is left as it is, and no sample does. *)
Definition outsideUTF8ToLower (s : string) : string :=
  match mapToLowerOutsideUTF8 s with
  | Some t => t
  | None => s
  end.

(** A post whose title is the byte [FE]. *)
Definition untitled : Post :=
  {| ID := 0; Title := byteFE; Content := "x"; Category := "";
     Tags := []; CreatedAt := 0; UpdatedAt := 0 |}.

(** The store after the create of that post. *)
Definition onePost : database.World :=
  (database.run tickingClock outsideUTF8ToLower
     [database.OpCreate untitled] database.NewWorld).2.

(** The store after the create of the first sample post, on the wall clock
    that is set back. *)
Definition setBackStore : database.World :=
  (database.run setBackClock noUnicode
     [database.OpCreate goBasics] database.NewWorld).2.

(** The body of a request: an object with a title and a content. *)
Definition helloBody : string :=
  "{" +:+ dquote +:+ "title" +:+ dquote +:+ ":" +:+ dquote +:+ "Hello" +:+
  dquote +:+ "," +:+ dquote +:+ "content" +:+ dquote +:+ ":" +:+ dquote +:+
  "World" +:+ dquote +:+ "}".

(** The decoder of Go on that body; as a stand-in, it decodes no other. *)
Definition decodeHello : string -> option Post := fun body =>
  if String.eqb body helloBody
  then Some {| ID := 0; Title := "Hello"; Content := "World"; Category := "";
               Tags := []; CreatedAt := 0; UpdatedAt := 0 |}
  else None.

(** A memory in which every address holds the first sample post. *)
Definition sampleMemory : pointers.Memory := pointers.NewMemory (fun _ => goBasics).

(** That memory after the creates of the posts at the addresses 1 and 2. *)
Definition twoPointers : pointers.Memory :=
  pointers.run tickingClock noUnicode
    [pointers.OpCreate 1%positive; pointers.OpCreate 2%positive] sampleMemory.

(** A mock store whose error is set. *)
Definition failingMock : handler_test.MockWorld :=
  {| handler_test.mock :=
       {| handler_test.posts := ∅; handler_test.nextID := 1;
          handler_test.err := Some "database is down" |};
     handler_test.ticks := 0 |}.

(** ** Facts about bytes and strings *)

Lemma byte_val_range c : 0 <= byte_val c < 256.
Proof.
  unfold byte_val. pose proof (N_ascii_bounded c) as Hb. lia.
Qed.

Lemma byte_of_val c : byte_of (byte_val c) = c.
Proof.
  unfold byte_of, byte_val. rewrite N2Z.id. apply ascii_N_embedding.
Qed.

Lemma byte_val_of z : 0 <= z < 256 -> byte_val (byte_of z) = z.
Proof.
  intros Hz. unfold byte_of, byte_val.
  rewrite N_ascii_embedding by lia. lia.
Qed.

Lemma byte_val_inj c d : byte_val c = byte_val d -> c = d.
Proof.
  intros H. rewrite <- (byte_of_val c), <- (byte_of_val d). by rewrite H.
Qed.

Lemma wrap64_small z : minInt64 <= z <= maxInt64 -> wrap64 z = z.
Proof.
  unfold wrap64, minInt64, maxInt64. intros Hz.
  rewrite Z.mod_small; lia.
Qed.

Example ParseInt_42 : strconv.ParseInt "42" = inl 42.
Proof. reflexivity. Qed.

Example ParseInt_neg : strconv.ParseInt "-7" = inl (-7).
Proof. reflexivity. Qed.

Example ParseInt_min : strconv.ParseInt "-9223372036854775808" = inl (- 2 ^ 63).
Proof. reflexivity. Qed.

Example ParseInt_max_plus_1 : strconv.ParseInt "9223372036854775808" = inr strconv.ErrRange.
Proof. reflexivity. Qed.

Example ParseInt_huge : strconv.ParseInt "99999999999999999999999" = inr strconv.ErrRange.
Proof. reflexivity. Qed.

Example ParseInt_posts : strconv.ParseInt "/posts" = inr strconv.ErrSyntax.
Proof. reflexivity. Qed.

Example ParseInt_sign_only : strconv.ParseInt "-" = inr strconv.ErrSyntax.
Proof. reflexivity. Qed.

Example TrimPrefix_id : strings.TrimPrefix "/posts/17" "/posts/" = "17".
Proof. reflexivity. Qed.

Example TrimPrefix_bare : strings.TrimPrefix "/posts" "/posts/" = "/posts".
Proof. reflexivity. Qed.

Example Contains_mid : strings.Contains "go basics" "bas" = true.
Proof. reflexivity. Qed.


Lemma append_empty_r (s : string) : s +:+ "" = s.
Proof. induction s as [|c s IH]; [done | simpl; f_equal; exact IH]. Qed.

Lemma append_assoc (s t u : string) : (s +:+ t) +:+ u = s +:+ t +:+ u.
Proof. induction s as [|c s IH]; [done | simpl; f_equal; exact IH]. Qed.

Lemma HasPrefix_app (p s : string) : strings.HasPrefix (p +:+ s) p = true.
Proof.
  unfold strings.HasPrefix.
  induction p as [|c p IH]; simpl; [by destruct s |].
  destruct (ascii_dec c c); [exact IH | done].
Qed.

Lemma HasPrefix_inv (s p : string) :
  strings.HasPrefix s p = true -> exists rest, s = p +:+ rest.
Proof.
  unfold strings.HasPrefix. revert s.
  induction p as [|c p IH]; intros s H; simpl in *.
  - by exists s.
  - destruct s as [|d s]; simpl in H; [done |].
    destruct (ascii_dec c d) as [->|]; [| done].
    destruct (IH s H) as [rest ->]. by exists rest.
Qed.

Lemma drop_bytes_app (p s : string) :
  strings.drop_bytes (String.length p) (p +:+ s) = s.
Proof. induction p as [|c p IH]; simpl; [by destruct s | exact IH]. Qed.

Lemma TrimPrefix_app (p s : string) : strings.TrimPrefix (p +:+ s) p = s.
Proof.
  unfold strings.TrimPrefix. rewrite HasPrefix_app. apply drop_bytes_app.
Qed.

Lemma append_eq_self (p s : string) : p +:+ s = p -> s = "".
Proof.
  induction p as [|c p IH]; simpl; [done |]. intros H. injection H. exact IH.
Qed.

(** Only the prefix itself and the empty string are trimmed to nothing. *)
Lemma TrimPrefix_eq_empty (s p : string) :
  strings.TrimPrefix s p = "" <-> s = p \/ s = "".
Proof.
  unfold strings.TrimPrefix.
  destruct (strings.HasPrefix s p) eqn:Hp.
  - destruct (HasPrefix_inv _ _ Hp) as [rest ->].
    rewrite drop_bytes_app. split.
    + intros ->. left. apply append_empty_r.
    + intros [H | H].
      * by apply append_eq_self in H.
      * destruct p; simpl in H; [done | discriminate].
  - split; [by right |]. intros [-> | ->]; [| done].
    pose proof (HasPrefix_app p "") as H. rewrite append_empty_r in H. congruence.
Qed.

#[local] Arguments strings.HasPrefix : simpl never.

Lemma Contains_occursIn (s sub : string) :
  strings.Contains s sub = true <-> occursIn sub s.
Proof.
  unfold occursIn. induction s as [|c s IH]; simpl.
  - rewrite orb_false_r. split.
    + intros H. destruct (HasPrefix_inv _ _ H) as [rest Hr]. by exists "", rest.
    + intros (pre & post & H). destruct pre; simpl in H.
      * rewrite H. apply HasPrefix_app.
      * discriminate.
  - rewrite orb_true_iff, IH. split.
    + intros [H | (pre & post & ->)].
      * destruct (HasPrefix_inv _ _ H) as [rest Hr]. by exists "", rest.
      * by exists (String c pre), post.
    + intros (pre & post & H). destruct pre as [|d pre]; simpl in H.
      * left. rewrite H. apply HasPrefix_app.
      * right. injection H as _ ->. by exists pre, post.
Qed.

Lemma Contains_suffix (s sub : string) : strings.Contains (s +:+ sub) sub = true.
Proof.
  apply Contains_occursIn. exists s, "". by rewrite append_empty_r.
Qed.

Lemma notFound_contains (id : Z) :
  strings.Contains (database.notFound id) "not found" = true.
Proof.
  apply Contains_occursIn. exists ("post with id " +:+ strconv.FormatInt id +:+ " "), "".
  unfold database.notFound. rewrite append_empty_r, !append_assoc. done.
Qed.

(** ** [strconv.ParseInt] accepts the numerals of the 64-bit integers *)

Lemma digitsValue_ge (s : string) (a v : Z) :
  0 <= a -> digitsValue a s = Some v -> a <= v.
Proof.
  revert a. induction s as [|c s IH]; intros a Ha H; simpl in H.
  - injection H as <-. lia.
  - destruct (isDigit c) eqn:Hd; [| done].
    unfold isDigit in Hd. apply andb_true_iff in Hd as [H1 H2].
    apply IH in H; lia.
Qed.

Lemma pow_2_64 : 2 ^ 64 = 18446744073709551616.
Proof. reflexivity. Qed.

Lemma maxUint64_eq : strconv.maxUint64 = 18446744073709551615.
Proof. reflexivity. Qed.

Lemma cutoff10_eq : strconv.cutoff10 = 1844674407370955162.
Proof. reflexivity. Qed.

Lemma parseUintLoop_digit (c : ascii) (s : string) (n : Z) :
  isDigit c = true -> 0 <= n <= strconv.maxUint64 ->
  strconv.parseUintLoop (String c s) n =
    if n * 10 + (byte_val c - 48) <=? strconv.maxUint64
    then strconv.parseUintLoop s (n * 10 + (byte_val c - 48))
    else inr strconv.ErrRange.
Proof.
  intros Hd Hn. cbn [strconv.parseUintLoop]. cbv zeta.
  unfold isDigit in Hd. rewrite Hd.
  apply andb_true_iff in Hd as [H1 H2].
  rewrite maxUint64_eq in *. rewrite cutoff10_eq, pow_2_64.
  replace (10 <=? byte_val c - 48) with false by lia.
  destruct (1844674407370955162 <=? n) eqn:Hc.
  - replace (n * 10 + (byte_val c - 48) <=? 18446744073709551615) with false by lia.
    done.
  - rewrite (Z.mod_small (n * 10)) by lia.
    destruct (n * 10 + (byte_val c - 48) <=? 18446744073709551615) eqn:Hle.
    + rewrite Z.mod_small by lia.
      replace (n * 10 + (byte_val c - 48) <? n * 10) with false by lia.
      replace (18446744073709551615 <? n * 10 + (byte_val c - 48)) with false by lia.
      done.
    + replace ((n * 10 + (byte_val c - 48)) mod 18446744073709551616)
        with (n * 10 + (byte_val c - 48) - 18446744073709551616).
      * replace (n * 10 + (byte_val c - 48) - 18446744073709551616 <? n * 10)
          with true by lia.
        done.
      * apply Z.mod_unique with 1; lia.
Qed.

Lemma parseUintLoop_nondigit (c : ascii) (s : string) (n : Z) :
  isDigit c = false -> strconv.parseUintLoop (String c s) n = inr strconv.ErrSyntax.
Proof.
  intros Hd. cbn [strconv.parseUintLoop]. cbv zeta.
  unfold isDigit in Hd. rewrite Hd.
  destruct ((97 <=? strconv.lower c) && (strconv.lower c <=? 122)) eqn:Hl; [| done].
  apply andb_true_iff in Hl as [H1 H2].
  replace (10 <=? strconv.lower c - 97 + 10) with true by lia. done.
Qed.

Lemma parseUintLoop_digits (s : string) (n : Z) :
  0 <= n <= strconv.maxUint64 ->
  match digitsValue n s with
  | Some v =>
      strconv.parseUintLoop s n =
        if v <=? strconv.maxUint64 then inl v else inr strconv.ErrRange
  | None => exists e, strconv.parseUintLoop s n = inr e
  end.
Proof.
  revert n. induction s as [|c s IH]; intros n Hn.
  - simpl. replace (n <=? strconv.maxUint64) with true by lia. done.
  - cbn [digitsValue]. destruct (isDigit c) eqn:Hd.
    + rewrite parseUintLoop_digit by done.
      assert (0 <= byte_val c - 48) as Hc.
      { unfold isDigit in Hd. apply andb_true_iff in Hd as [H1 H2]. lia. }
      destruct (n * 10 + (byte_val c - 48) <=? strconv.maxUint64) eqn:Hle.
      * apply IH. lia.
      * destruct (digitsValue _ s) as [v|] eqn:Hv; [| by eexists].
        apply digitsValue_ge in Hv; [| lia].
        replace (v <=? strconv.maxUint64) with false by lia. done.
    + rewrite parseUintLoop_nondigit by done. by eexists.
Qed.

Lemma ParseUint_unsignedValue (s : string) :
  match unsignedValue s with
  | Some v =>
      0 <= v /\
      strconv.ParseUint s =
        if v <=? strconv.maxUint64 then inl v else inr strconv.ErrRange
  | None => exists e, strconv.ParseUint s = inr e
  end.
Proof.
  destruct s as [|c s]; [by eexists |].
  unfold unsignedValue, strconv.ParseUint.
  pose proof (parseUintLoop_digits (String c s) 0) as H.
  rewrite maxUint64_eq in H. specialize (H ltac:(lia)).
  destruct (digitsValue 0 (String c s)) as [v|] eqn:Hv; [| done].
  split; [| done]. by apply digitsValue_ge in Hv.
Qed.

Lemma pow_2_63 : 2 ^ 63 = 9223372036854775808.
Proof. reflexivity. Qed.

Ltac bool_cases :=
  repeat match goal with
         | |- context [?a <=? ?b] => destruct (Z.leb_spec a b)
         | |- context [?a <? ?b] => destruct (Z.ltb_spec a b)
         end.

(** The part of [ParseInt] that follows the call of [ParseUint]. *)
Lemma ParseInt_after_ParseUint (neg : bool) (s1 : string) :
  match unsignedValue s1 with
  | Some v =>
      let z := if neg then - v else v in
      match strconv.ParseUint s1 with
      | inr strconv.ErrSyntax => inr strconv.ErrSyntax
      | r =>
          let un := match r with inl u => u | inr _ => strconv.maxUint64 end in
          if negb neg && (2 ^ 63 <=? un) then inr strconv.ErrRange
          else if neg && (2 ^ 63 <? un) then inr strconv.ErrRange
          else inl (if neg then - un else un)
      end = if (minInt64 <=? z) && (z <=? maxInt64)
            then inl z else inr strconv.ErrRange
  | None =>
      exists e,
      match strconv.ParseUint s1 with
      | inr strconv.ErrSyntax => inr strconv.ErrSyntax
      | r =>
          let un := match r with inl u => u | inr _ => strconv.maxUint64 end in
          if negb neg && (2 ^ 63 <=? un) then inr strconv.ErrRange
          else if neg && (2 ^ 63 <? un) then inr strconv.ErrRange
          else inl (if neg then - un else un)
      end = inr e
  end.
Proof.
  pose proof (ParseUint_unsignedValue s1) as H.
  destruct (unsignedValue s1) as [v|].
  - destruct H as [Hv ->]. cbv zeta.
    unfold minInt64, maxInt64. rewrite maxUint64_eq, pow_2_63.
    destruct (Z.leb_spec v 18446744073709551615); destruct neg; simpl;
      bool_cases; simpl; try done; lia.
  - destruct H as [e ->]. destruct e; [by eexists |].
    destruct neg; by eexists.
Qed.

Lemma ParseInt_numeral (tok : string) :
  match numeralValue tok with
  | Some z =>
      strconv.ParseInt tok =
        if (minInt64 <=? z) && (z <=? maxInt64) then inl z
        else inr strconv.ErrRange
  | None => exists e, strconv.ParseInt tok = inr e
  end.
Proof.
  destruct tok as [|c0 rest]; [by eexists |].
  unfold strconv.ParseInt, numeralValue.
  destruct (Ascii.eqb c0 "+"); [| destruct (Ascii.eqb c0 "-")].
  - apply (ParseInt_after_ParseUint false rest).
  - pose proof (ParseInt_after_ParseUint true rest) as H.
    destruct (unsignedValue rest); exact H.
  - apply (ParseInt_after_ParseUint false (String c0 rest)).
Qed.

(** [ParseInt] returns [z] exactly on the numerals of [z], for [z] a 64-bit
    integer, and an error on every other string. *)
Lemma ParseInt_spec (tok : string) (z : Z) :
  strconv.ParseInt tok = inl z <-> denotesInt64 tok z.
Proof.
  unfold denotesInt64. pose proof (ParseInt_numeral tok) as H.
  destruct (numeralValue tok) as [v|].
  - rewrite H. destruct (Z.leb_spec minInt64 v); destruct (Z.leb_spec v maxInt64);
      simpl; split; intros Hz;
      try (injection Hz as <-; done); try discriminate;
      destruct Hz as [[= <-] Hr]; try done; lia.
  - destruct H as [e ->]. split; [done | by intros [? _]].
Qed.

Lemma ParseInt_error (tok : string) :
  (forall z, ~ denotesInt64 tok z) -> exists e, strconv.ParseInt tok = inr e.
Proof.
  intros H. destruct (strconv.ParseInt tok) as [z|e] eqn:Hp; [| by eexists].
  apply ParseInt_spec in Hp. by apply H in Hp.
Qed.

(** ** Routing and validation in the handler *)

Section HandlerFacts.

Import database handler.

Context {S : Type} {Store_S : Store S}.
Variable jsonDecode : string -> option Post.

Lemma eqb_empty (s : string) : String.eqb s "" = true <-> s = "".
Proof. apply String.eqb_eq. Qed.

Lemma ServeHTTP_collection (r : Request) (w : S) :
  strings.TrimPrefix (Path r) "/posts/" = "" ->
  ServeHTTP jsonDecode r w = collectionRoute jsonDecode r w.
Proof. intros H. unfold ServeHTTP. by rewrite H. Qed.

Lemma ServeHTTP_item (r : Request) (w : S) :
  strings.TrimPrefix (Path r) "/posts/" <> "" ->
  ServeHTTP jsonDecode r w =
    match strconv.ParseInt (strings.TrimPrefix (Path r) "/posts/") with
    | inr _ => (http_Error "Invalid post ID" StatusBadRequest, w)
    | inl id => itemRoute jsonDecode r id w
    end.
Proof.
  intros H. unfold ServeHTTP.
  destruct (String.eqb _ "") eqn:He.
  - by apply eqb_empty in He.
  - by destruct (strconv.ParseInt _).
Qed.

(** C1, at the input where the code departs from it: a request for the
    bare collection path [/posts] is never dispatched to the list or the
    create operation.  Whatever its method, its query, its body and the
    state of the store, [ServeHTTP] takes the whole path for an identifier,
    fails to parse it and answers 400 without calling the store. *)
Theorem bare_collection_path_is_rejected
    (method : string) (query : gmap string (list string)) (body : string)
    (w : S) :
  ServeHTTP jsonDecode
    {| Method := method; Path := "/posts"; Query := query; Body := body |} w
  = (http_Error "Invalid post ID" StatusBadRequest, w).
Proof. reflexivity. Qed.

(** C10: [ServeHTTP] strips the prefix [/posts/] from the path.  The
    remainder is empty for the path [/posts/] (and for an empty path) only,
    and then GET lists, POST creates and any other method gets 405.  Every
    other remainder is handed to [strconv.ParseInt], a failure answered
    with 400 and a success dispatched on the identifier; the bare path
    [/posts] is its own remainder, and it does not parse. *)
Theorem ServeHTTP_routes_on_the_remainder (r : Request) (w : S) :
  let idStr := strings.TrimPrefix (Path r) "/posts/" in
  (idStr = "" <-> Path r = "/posts/" \/ Path r = "") /\
  ServeHTTP jsonDecode r w =
    (if decide (idStr = "") then
       if String.eqb (Method r) "GET" then GetAllPosts r w
       else if String.eqb (Method r) "POST" then CreatePost jsonDecode r w
       else (http_Error "Method not allowed" StatusMethodNotAllowed, w)
     else
       match strconv.ParseInt idStr with
       | inr _ => (http_Error "Invalid post ID" StatusBadRequest, w)
       | inl id => itemRoute jsonDecode r id w
       end) /\
  strings.TrimPrefix "/posts" "/posts/" = "/posts" /\
  strconv.ParseInt "/posts" = inr strconv.ErrSyntax.
Proof.
  intros idStr. split; [apply TrimPrefix_eq_empty |].
  split; [| done].
  destruct (decide (idStr = "")) as [He | He].
  - rewrite ServeHTTP_collection by done. unfold collectionRoute, MethodGet, MethodPost.
    by repeat case_match.
  - by rewrite ServeHTTP_item.
Qed.

(** The answer to a path [/posts/] followed by a non-empty token, by the
    numeral the token is. *)
Lemma ServeHTTP_numeral (r : Request) (w : S) (tok : string) :
  tok <> "" ->
  Path r = "/posts/" +:+ tok ->
  ServeHTTP jsonDecode r w =
    match numeralValue tok with
    | Some z =>
        if (minInt64 <=? z) && (z <=? maxInt64)
        then itemRoute jsonDecode r z w
        else (http_Error "Invalid post ID" StatusBadRequest, w)
    | None => (http_Error "Invalid post ID" StatusBadRequest, w)
    end.
Proof.
  intros Hne Hp.
  assert (strings.TrimPrefix (Path r) "/posts/" = tok) as Ht.
  { rewrite Hp. apply TrimPrefix_app. }
  rewrite ServeHTTP_item by congruence. rewrite Ht.
  pose proof (ParseInt_numeral tok) as H.
  destruct (numeralValue tok) as [z|].
  - rewrite H. by destruct (_ && _).
  - by destruct H as [e ->].
Qed.

(** C2, as amended: a non-empty token after [/posts/] is answered with 400
    when it is not a decimal numeral, with an optional sign, of an integer
    between [-2^63] and [2^63 - 1], and this without a call of the store,
    whatever its state.  A token that is such a numeral, a negative one
    included, is dispatched by method on the integer it denotes. *)
Theorem ServeHTTP_token (r : Request) (w : S) (tok : string) :
  tok <> "" ->
  Path r = "/posts/" +:+ tok ->
  ((forall z, ~ denotesInt64 tok z) ->
   ServeHTTP jsonDecode r w =
     (http_Error "Invalid post ID" StatusBadRequest, w)) /\
  (forall z, denotesInt64 tok z ->
   ServeHTTP jsonDecode r w = itemRoute jsonDecode r z w).
Proof.
  intros Hne Hp. rewrite (ServeHTTP_numeral r w tok) by done. split.
  - intros Hno. destruct (numeralValue tok) as [z|] eqn:Hz; [| done].
    destruct (Z.leb_spec minInt64 z); destruct (Z.leb_spec z maxInt64);
      simpl; try done.
    exfalso. apply (Hno z). by split.
  - intros z [-> [H1 H2]].
    apply Z.leb_le in H1, H2. by rewrite H1, H2.
Qed.

Lemma CreatePost_invalid (r : Request) (w : S) (msg : string) :
  validationError (jsonDecode (Body r)) = Some msg ->
  CreatePost jsonDecode r w = (http_Error msg StatusBadRequest, w).
Proof.
  unfold validationError, CreatePost.
  destruct (jsonDecode (Body r)) as [post|].
  - destruct (String.eqb (Title post) ""); simpl.
    + by intros [= <-].
    + destruct (String.eqb (Content post) ""); [by intros [= <-] | done].
  - by intros [= <-].
Qed.

Lemma UpdatePost_invalid (r : Request) (id : Z) (w : S) (msg : string) :
  validationError (jsonDecode (Body r)) = Some msg ->
  UpdatePost jsonDecode r id w = (http_Error msg StatusBadRequest, w).
Proof.
  unfold validationError, UpdatePost.
  destruct (jsonDecode (Body r)) as [post|].
  - destruct (String.eqb (Title post) ""); simpl.
    + by intros [= <-].
    + destruct (String.eqb (Content post) ""); [by intros [= <-] | done].
  - by intros [= <-].
Qed.

End HandlerFacts.

Section ValidationFacts.

Import database handler.

Context {S : Type} {Store_S : Store S}.
Variable jsonDecode : string -> option Post.

Lemma requiredMessage_names_the_fields :
  strings.Contains requiredMessage "title" = true /\
  strings.Contains requiredMessage "content" = true.
Proof. by split. Qed.

(** C9: a body that does not decode, or that decodes to a post without a
    title or without a content, is answered with 400 by the create and by
    the update handler, with the message of [validationError]; for a body
    that decodes, this is an object whose [error] names the title and the
    content.  The state is returned as it was, for every implementation of
    the store, every state and every identifier, and a store that counts its
    calls has received none. *)
Theorem invalid_body_is_rejected_before_the_store
    (r : Request) (id : Z) (w : S) (calls : nat) (msg : string) :
  validationError (jsonDecode (Body r)) = Some msg ->
  CreatePost jsonDecode r w = (http_Error msg StatusBadRequest, w) /\
  UpdatePost jsonDecode r id w = (http_Error msg StatusBadRequest, w) /\
  CreatePost (Store_S := CountingStore Store_S) jsonDecode r (w, calls) =
    (http_Error msg StatusBadRequest, (w, calls)) /\
  UpdatePost (Store_S := CountingStore Store_S) jsonDecode r id (w, calls) =
    (http_Error msg StatusBadRequest, (w, calls)) /\
  (is_Some (jsonDecode (Body r)) ->
   msg = requiredMessage /\
   strings.Contains msg "title" = true /\
   strings.Contains msg "content" = true).
Proof.
  intros H. split; [by apply CreatePost_invalid |].
  split; [by apply UpdatePost_invalid |].
  split; [by apply (CreatePost_invalid (Store_S := CountingStore Store_S)) |].
  split; [by apply (UpdatePost_invalid (Store_S := CountingStore Store_S)) |].
  intros [post Hpost]. rewrite Hpost in H. unfold validationError in H.
  assert (msg = requiredMessage) as ->; [| by split].
  destruct (String.eqb (Title post) ""); [congruence |].
  destruct (String.eqb (Content post) ""); [congruence | done].
Qed.

(** A create or an update routed by [ServeHTTP] with such a body gets the
    same answer. *)
Lemma ServeHTTP_invalid_body (r : Request) (w : S) (msg : string) :
  validationError (jsonDecode (Body r)) = Some msg ->
  (Method r = "POST" -> Path r = "/posts/" ->
   ServeHTTP jsonDecode r w = (http_Error msg StatusBadRequest, w)) /\
  (forall tok id, Method r = "PUT" -> tok <> "" -> Path r = "/posts/" +:+ tok ->
   denotesInt64 tok id ->
   ServeHTTP jsonDecode r w = (http_Error msg StatusBadRequest, w)).
Proof.
  intros Hv. split.
  - intros Hm Hp. rewrite (ServeHTTP_collection jsonDecode) by (by rewrite Hp).
    unfold collectionRoute. rewrite Hm. cbn. by apply CreatePost_invalid.
  - intros tok id Hm Hne Hp [Hz [H1 H2]].
    rewrite (ServeHTTP_numeral jsonDecode r w tok), Hz by done.
    apply Z.leb_le in H1, H2. rewrite H1, H2. cbn.
    unfold itemRoute. rewrite Hm. cbn. by apply UpdatePost_invalid.
Qed.

(** A body that passes the validation reaches the store. *)
Lemma UpdatePost_valid (r : Request) (id : Z) (w : S) (post : Post) :
  jsonDecode (Body r) = Some post ->
  validationError (jsonDecode (Body r)) = None ->
  UpdatePost jsonDecode r id w =
    (let '(updated, w') := database.UpdatePost id post w in
     match updated with
     | Err msg =>
         if strings.Contains msg "not found"
         then (http_Error msg StatusNotFound, w')
         else (http_Error "Failed to update post" StatusInternalServerError, w')
     | Ok updatedPost => (writeJSON StatusOK (JSONPost updatedPost), w')
     end).
Proof.
  intros Hd Hv. unfold UpdatePost, validationError in *. rewrite Hd in *.
  destruct (String.eqb (Title post) ""); [done |].
  destruct (String.eqb (Content post) ""); [done |]. simpl.
  unfold bind. destruct (database.UpdatePost id post w) as [[p|msg] w']; [done |].
  by destruct (strings.Contains msg "not found").
Qed.

End ValidationFacts.

(** ** The operations of the in-memory store *)

#[local] Arguments wrap64 : simpl never.

Section StoreFacts.

Import database.

Variable clock : nat -> Time.
Variable mapUnicodeToLower : string -> string.

Local Abbreviation run := (database.run clock mapUnicodeToLower).
Local Abbreviation step := (database.step clock mapUnicodeToLower).

(** *** What each operation returns and leaves behind *)

Lemma CreatePost_eq (draft : Post) (w : World) :
  MemoryStore_CreatePost clock draft w =
    (Ok (nextID (store w)),
     {| store :=
          {| posts :=
               <[nextID (store w) :=
                   {| ID := nextID (store w); Title := Title draft;
                      Content := Content draft; Category := Category draft;
                      Tags := Tags draft; CreatedAt := clock (ticks w);
                      UpdatedAt := clock (Datatypes.S (ticks w)) |}]>
                 (posts (store w));
             nextID := wrap64 (nextID (store w) + 1) |};
        ticks := Datatypes.S (Datatypes.S (ticks w)) |}).
Proof. reflexivity. Qed.

Lemma GetPost_eq (id : Z) (w : World) :
  MemoryStore_GetPost id w =
    (match posts (store w) !! id with
     | None => Err (notFound id)
     | Some post => Ok post
     end, w).
Proof.
  unfold MemoryStore_GetPost, bind, getStore. by destruct (posts (store w) !! id).
Qed.

Lemma UpdatePost_None (id : Z) (draft : Post) (w : World) :
  posts (store w) !! id = None ->
  MemoryStore_UpdatePost clock id draft w = (Err (notFound id), w).
Proof.
  intros H. unfold MemoryStore_UpdatePost, bind, getStore. by rewrite H.
Qed.

Lemma UpdatePost_Some (id : Z) (draft old : Post) (w : World) :
  posts (store w) !! id = Some old ->
  MemoryStore_UpdatePost clock id draft w =
    let new :=
      {| ID := ID old; Title := Title draft; Content := Content draft;
         Category := Category draft; Tags := Tags draft;
         CreatedAt := CreatedAt old; UpdatedAt := clock (ticks w) |} in
    (Ok new,
     {| store := {| posts := <[id := new]> (posts (store w));
                    nextID := nextID (store w) |};
        ticks := Datatypes.S (ticks w) |}).
Proof.
  intros H. unfold MemoryStore_UpdatePost, bind, getStore. by rewrite H.
Qed.

Lemma DeletePost_None (id : Z) (w : World) :
  posts (store w) !! id = None ->
  MemoryStore_DeletePost id w = (Err (notFound id), w).
Proof.
  intros H. unfold MemoryStore_DeletePost, bind, getStore. by rewrite H.
Qed.

Lemma DeletePost_Some (id : Z) (old : Post) (w : World) :
  posts (store w) !! id = Some old ->
  MemoryStore_DeletePost id w =
    (Ok tt,
     {| store := {| posts := delete id (posts (store w));
                    nextID := nextID (store w) |};
        ticks := ticks w |}).
Proof.
  intros H. unfold MemoryStore_DeletePost, bind, getStore. by rewrite H.
Qed.

Lemma GetAllPosts_in_eq (order : gmap Z Post -> list (Z * Post))
    (term : string) (w : World) :
  GetAllPosts_in mapUnicodeToLower order term w =
    (Ok (collect mapUnicodeToLower term (order (posts (store w)))), w).
Proof. reflexivity. Qed.

Lemma run_cons (op : Op) (ops : list Op) (w : World) :
  run (op :: ops) w =
    (let '(o, w1) := step op w in
     let '(os, w2) := run ops w1 in (o :: os, w2)).
Proof.
  cbn [database.run]. unfold bind. destruct (step op w) as [o w1].
  by destruct (run ops w1).
Qed.

Lemma step_create (draft : Post) (w : World) :
  step (OpCreate draft) w =
    (Created (Ok (nextID (store w))), (MemoryStore_CreatePost clock draft w).2).
Proof. reflexivity. Qed.

Lemma step_get (id : Z) (w : World) : (step (OpGet id) w).2 = w.
Proof. cbn [database.step]. unfold bind. by rewrite GetPost_eq. Qed.

Lemma step_list (term : string) (w : World) : (step (OpList term) w).2 = w.
Proof. reflexivity. Qed.

Lemma step_update (id : Z) (draft : Post) (w : World) :
  (step (OpUpdate id draft) w).2 = (MemoryStore_UpdatePost clock id draft w).2.
Proof.
  cbn [database.step]. unfold bind.
  by destruct (MemoryStore_UpdatePost clock id draft w).
Qed.

Lemma step_delete (id : Z) (w : World) :
  (step (OpDelete id) w).2 = (MemoryStore_DeletePost id w).2.
Proof.
  cbn [database.step]. unfold bind. by destruct (MemoryStore_DeletePost id w).
Qed.

Lemma creates_cons (op : Op) (ops : list Op) :
  creates (op :: ops) = ((if isCreate op then 1 else 0) + creates ops)%nat.
Proof.
  unfold creates. rewrite filter_cons. by destruct (isCreate op).
Qed.

(** The counter moves at a create only. *)
Lemma step_nextID (op : Op) (w : World) :
  nextID (store (step op w).2) =
    if isCreate op then wrap64 (nextID (store w) + 1) else nextID (store w).
Proof.
  destruct op as [d|id|term|id d|id]; cbn [isCreate].
  - by rewrite step_create.
  - by rewrite step_get.
  - by rewrite step_list.
  - rewrite step_update.
    destruct (posts (store w) !! id) as [old|] eqn:Hl.
    + by rewrite (UpdatePost_Some _ _ old).
    + by rewrite UpdatePost_None.
  - rewrite step_delete.
    destruct (posts (store w) !! id) as [old|] eqn:Hl.
    + by rewrite (DeletePost_Some _ old).
    + by rewrite DeletePost_None.
Qed.

(** A create returns the counter; no other operation returns an identifier
    of a new post. *)
Lemma step_createdIDs (op : Op) (w : World) :
  createdIDs [(step op w).1] =
    if isCreate op then [nextID (store w)] else [].
Proof.
  destruct op as [d|id|term|id d|id]; cbn [isCreate database.step]; unfold bind;
    try done.
  - by destruct (MemoryStore_GetPost id w).
  - by destruct (MemoryStore_UpdatePost clock id d w).
  - by destruct (MemoryStore_DeletePost id w).
Qed.

Lemma createdIDs_cons (o : Outcome) (os : list Outcome) :
  createdIDs (o :: os) = createdIDs [o] ++ createdIDs os.
Proof. destruct o as [[?|?]|?|?|?|?]; done. Qed.

Lemma run_createdIDs_cons (op : Op) (ops : list Op) (w : World) :
  createdIDs (run (op :: ops) w).1 =
    (if isCreate op then [nextID (store w)] else []) ++
    createdIDs (run ops (step op w).2).1.
Proof.
  rewrite run_cons. rewrite <- step_createdIDs.
  destruct (step op w) as [o w1]. cbn [fst snd].
  destruct (run ops w1) as [os w2]. cbn [fst snd].
  apply createdIDs_cons.
Qed.

Lemma run_world_cons (op : Op) (ops : list Op) (w : World) :
  (run (op :: ops) w).2 = (run ops (step op w).2).2.
Proof.
  rewrite run_cons. destruct (step op w) as [o w1]. cbn [fst snd].
  by destruct (run ops w1) as [os w2].
Qed.

Lemma run_no_create (ops : list Op) (w : World) :
  creates ops = 0%nat -> createdIDs (run ops w).1 = [].
Proof.
  revert w. induction ops as [|op ops IH]; intros w Hc; [done |].
  rewrite creates_cons in Hc. rewrite run_createdIDs_cons.
  destruct (isCreate op); [lia |]. apply IH. lia.
Qed.

(** From a counter [n], a run with [k] creates returns [n], [n + 1], ...,
    [n + k - 1], as long as these are [int64] numbers. *)
Lemma run_createdIDs (ops : list Op) (w : World) :
  nextID (store w) + Z.of_nat (creates ops) <= maxInt64 + 1 ->
  minInt64 <= nextID (store w) ->
  createdIDs (run ops w).1 = seqZ (nextID (store w)) (Z.of_nat (creates ops)).
Proof.
  revert w. induction ops as [|op ops IH]; intros w Hk Hn; [done |].
  rewrite run_createdIDs_cons. rewrite creates_cons in *.
  pose proof (step_nextID op w) as Hs.
  destruct (isCreate op).
  - rewrite seqZ_cons by lia. cbn [app]. f_equal.
    replace (Z.pred (Z.of_nat (1 + creates ops))) with (Z.of_nat (creates ops))
      by lia.
    destruct (decide (creates ops = 0%nat)) as [H0 | H0].
    + rewrite H0. rewrite run_no_create by done. by rewrite seqZ_nil.
    + rewrite wrap64_small in Hs by (unfold minInt64, maxInt64 in *; lia).
      rewrite IH; rewrite Hs; [done | lia | lia].
  - cbn [app]. rewrite IH; rewrite Hs; [done | lia | lia].
Qed.

Lemma StronglySorted_seqZ (m n : Z) : StronglySorted Z.lt (seqZ m n).
Proof.
  destruct (Z.le_gt_cases n 0) as [Hn | Hn].
  - rewrite seqZ_nil by done. constructor.
  - rewrite <- (Z2Nat.id n) by lia. generalize (Z.to_nat n) as k. clear.
    intros k. revert m. induction k as [|k IH]; intros m.
    + rewrite seqZ_nil by lia. constructor.
    + rewrite seqZ_cons by lia.
      replace (Z.pred (Z.of_nat (Datatypes.S k))) with (Z.of_nat k) by lia.
      constructor; [apply IH |].
      apply Forall_seqZ. lia.
Qed.

(** C4: from a new store and along every sequence of store operations,
    deletes of earlier identifiers included, the create calls return 1, 2,
    3, ... in this order, hence strictly increasing numbers none of which
    is returned twice.  The sequence makes at most [2^63 - 1] create
    calls: the counter is an [int64]. *)
Theorem created_ids_count_up_from_one (ops : list Op) :
  Z.of_nat (creates ops) <= maxInt64 ->
  let ids := createdIDs (run ops NewWorld).1 in
  ids = seqZ 1 (Z.of_nat (creates ops)) /\
  StronglySorted Z.lt ids /\
  NoDup ids.
Proof.
  intros Hk ids.
  assert (ids = seqZ 1 (Z.of_nat (creates ops))) as ->.
  { unfold ids. rewrite run_createdIDs; [done | cbn; lia | done]. }
  split; [done |]. split; [apply StronglySorted_seqZ | apply NoDup_seqZ].
Qed.

(** *** Create, then get *)

(** A create returns the counter, and a get of that identifier then returns
    the draft's four fields under that identifier, stamped with the two
    readings of the clock the create took, one after the other. *)
Lemma create_then_get (draft : Post) (w : World) :
  let id := nextID (store w) in
  let w1 := (MemoryStore_CreatePost clock draft w).2 in
  (MemoryStore_CreatePost clock draft w).1 = Ok id /\
  MemoryStore_GetPost id w1 =
    (Ok {| ID := id; Title := Title draft; Content := Content draft;
           Category := Category draft; Tags := Tags draft;
           CreatedAt := clock (ticks w);
           UpdatedAt := clock (Datatypes.S (ticks w)) |}, w1).
Proof.
  intros id w1. split; [done |].
  rewrite GetPost_eq. unfold w1. rewrite CreatePost_eq. cbn [snd store posts].
  by rewrite lookup_insert_eq.
Qed.

(** The two instants of a created post are equal only if the clock gave
    the same reading twice; they are in order when the clock never runs
    backwards. *)
Lemma create_instants (draft p : Post) (w : World) :
  let w1 := (MemoryStore_CreatePost clock draft w).2 in
  MemoryStore_GetPost (nextID (store w)) w1 = (Ok p, w1) ->
  (CreatedAt p = UpdatedAt p <->
   clock (ticks w) = clock (Datatypes.S (ticks w))) /\
  (monotone clock -> CreatedAt p <= UpdatedAt p).
Proof.
  intros w1 Hg.
  destruct (create_then_get draft w) as [_ Hg']. fold w1 in Hg'.
  rewrite Hg' in Hg. injection Hg as <-. cbn. split; [done |].
  intros Hmono. apply Hmono. lia.
Qed.

(** *** Well-formed stores *)

Lemma NewWorld_wellFormed : wellFormed clock NewWorld.
Proof.
  unfold wellFormed, idsBelowCounter, keyedByID, stamped, NewWorld,
    NewMemoryStore. cbn [store posts nextID ticks].
  split; [| split].
  - split; [unfold maxInt64; lia |].
    intros id [p Hp]. by rewrite lookup_empty in Hp.
  - intros id p Hp. by rewrite lookup_empty in Hp.
  - intros id p Hp. by rewrite lookup_empty in Hp.
Qed.

Lemma CreatePost_wellFormed (draft : Post) (w : World) :
  wellFormed clock w ->
  nextID (store w) < maxInt64 ->
  wellFormed clock (MemoryStore_CreatePost clock draft w).2.
Proof.
  intros ([Hn Hlive] & Hkey & Hst) Hlt. rewrite CreatePost_eq.
  cbn [snd]. unfold wellFormed, idsBelowCounter, keyedByID, stamped.
  cbn [store posts nextID ticks].
  rewrite wrap64_small by (unfold minInt64, maxInt64 in *; lia).
  split; [split; [lia |] | split].
  - intros id [p Hp]. destruct (decide (id = nextID (store w))) as [-> | Hne].
    + lia.
    + rewrite lookup_insert_ne in Hp by done.
      specialize (Hlive id (ex_intro _ p Hp)). lia.
  - intros id p Hp. destruct (decide (id = nextID (store w))) as [-> | Hne].
    + rewrite lookup_insert_eq in Hp. by injection Hp as <-.
    + rewrite lookup_insert_ne in Hp by done. by apply Hkey.
  - intros id p Hp. destruct (decide (id = nextID (store w))) as [-> | Hne].
    + rewrite lookup_insert_eq in Hp. injection Hp as <-.
      exists (ticks w), (Datatypes.S (ticks w)). cbn. split; [lia | done].
    + rewrite lookup_insert_ne in Hp by done.
      destruct (Hst id p Hp) as (i & j & Hij & Hc & Hu).
      exists i, j. split; [lia | done].
Qed.

Lemma UpdatePost_wellFormed (id : Z) (draft : Post) (w : World) :
  wellFormed clock w ->
  wellFormed clock (MemoryStore_UpdatePost clock id draft w).2.
Proof.
  intros Hw. destruct (posts (store w) !! id) as [old|] eqn:Hold.
  2:{ by rewrite UpdatePost_None. }
  destruct Hw as ([Hn Hlive] & Hkey & Hst).
  rewrite (UpdatePost_Some _ _ old) by done. cbv zeta.
  cbn [snd]. unfold wellFormed, idsBelowCounter, keyedByID, stamped.
  cbn [store posts nextID ticks].
  split; [split; [lia |] | split].
  - intros id' [p Hp]. destruct (decide (id' = id)) as [-> | Hne].
    + apply Hlive. by exists old.
    + rewrite lookup_insert_ne in Hp by done. apply Hlive. by exists p.
  - intros id' p Hp. destruct (decide (id' = id)) as [-> | Hne].
    + rewrite lookup_insert_eq in Hp. injection Hp as <-. cbn.
      by apply Hkey.
    + rewrite lookup_insert_ne in Hp by done. by apply Hkey.
  - intros id' p Hp. destruct (decide (id' = id)) as [-> | Hne].
    + rewrite lookup_insert_eq in Hp. injection Hp as <-.
      destruct (Hst id old Hold) as (i & j & Hij & Hc & Hu).
      exists i, (ticks w). cbn. split; [lia | done].
    + rewrite lookup_insert_ne in Hp by done.
      destruct (Hst id' p Hp) as (i & j & Hij & Hc & Hu).
      exists i, j. split; [lia | done].
Qed.

Lemma DeletePost_wellFormed (id : Z) (w : World) :
  wellFormed clock w -> wellFormed clock (MemoryStore_DeletePost id w).2.
Proof.
  intros Hw. destruct (posts (store w) !! id) as [old|] eqn:Hold.
  2:{ by rewrite DeletePost_None. }
  destruct Hw as ([Hn Hlive] & Hkey & Hst).
  rewrite (DeletePost_Some _ old) by done.
  cbn [snd]. unfold wellFormed, idsBelowCounter, keyedByID, stamped.
  cbn [store posts nextID ticks].
  split; [split; [lia |] | split].
  - intros id' [p Hp]. apply lookup_delete_Some in Hp as [_ Hp].
    apply Hlive. by exists p.
  - intros id' p Hp. apply lookup_delete_Some in Hp as [_ Hp]. by apply Hkey.
  - intros id' p Hp. apply lookup_delete_Some in Hp as [_ Hp].
    by apply (Hst id').
Qed.

Lemma step_wellFormed (op : Op) (w : World) :
  wellFormed clock w ->
  (isCreate op = true -> nextID (store w) < maxInt64) ->
  wellFormed clock (step op w).2.
Proof.
  intros Hw Hc. destruct op as [d|id|term|id d|id].
  - rewrite step_create. cbn [snd]. apply CreatePost_wellFormed; auto.
  - by rewrite step_get.
  - by rewrite step_list.
  - rewrite step_update. by apply UpdatePost_wellFormed.
  - rewrite step_delete. by apply DeletePost_wellFormed.
Qed.

(** A run keeps the store well formed as long as the counter stays an
    [int64]. *)
Lemma run_wellFormed (ops : list Op) (w : World) :
  wellFormed clock w ->
  nextID (store w) + Z.of_nat (creates ops) <= maxInt64 ->
  wellFormed clock (run ops w).2 /\
  nextID (store (run ops w).2) = nextID (store w) + Z.of_nat (creates ops).
Proof.
  revert w. induction ops as [|op ops IH]; intros w Hw Hk.
  - cbn. split; [done | lia].
  - rewrite run_world_cons. rewrite creates_cons in *.
    pose proof (step_nextID op w) as Hs.
    pose proof Hw as ([Hn _] & _).
    assert (wellFormed clock (step op w).2) as Hw1.
    { apply step_wellFormed; [done |]. intros Hc. rewrite Hc in Hk. lia. }
    destruct (isCreate op).
    + rewrite wrap64_small in Hs by (unfold minInt64, maxInt64 in *; lia).
      destruct (IH _ Hw1) as [H1 H2]; [lia |]. split; [done | lia].
    + destruct (IH _ Hw1) as [H1 H2]; [lia |]. split; [done | lia].
Qed.

(** *** Update *)

Local Abbreviation memoryStore := (MemoryStore_Store clock mapUnicodeToLower).

(** C7: an update under an identifier that is not live returns the
    not-found error of the store and leaves the state as it was, the
    collection and the counter included.  Through the handler, a request
    whose body passes the validation is answered with 404 and the message
    of that error; one whose body does not pass it got its 400 before. *)
Theorem update_of_an_absent_post
    (jsonDecode : string -> option Post) (r : handler.Request)
    (id : Z) (draft : Post) (w : World) :
  posts (store w) !! id = None ->
  MemoryStore_UpdatePost clock id draft w = (Err (notFound id), w) /\
  strings.Contains (notFound id) "not found" = true /\
  handler.UpdatePost (Store_S := memoryStore) jsonDecode r id w =
    match validationError (jsonDecode (handler.Body r)) with
    | Some msg => (handler.http_Error msg handler.StatusBadRequest, w)
    | None => (handler.http_Error (notFound id) handler.StatusNotFound, w)
    end.
Proof.
  intros Hnone. split; [by apply UpdatePost_None |].
  split; [apply notFound_contains |].
  destruct (validationError (jsonDecode (handler.Body r))) as [msg|] eqn:Hv.
  - by apply UpdatePost_invalid.
  - destruct (jsonDecode (handler.Body r)) as [post|] eqn:Hd; [| done].
    rewrite (UpdatePost_valid jsonDecode r id w post) by (done || by rewrite Hd).
    change (database.UpdatePost id post w)
      with (MemoryStore_UpdatePost clock id post w).
    rewrite UpdatePost_None by done. by rewrite notFound_contains.
Qed.

(** *** Delete *)

Lemma step_absent (op : Op) (w : World) (id : Z) :
  posts (store w) !! id = None ->
  id <> nextID (store w) ->
  posts (store (step op w).2) !! id = None.
Proof.
  intros Hnone Hne. destruct op as [d|id'|term|id' d|id'].
  - rewrite step_create, CreatePost_eq. cbn [snd store posts].
    by rewrite lookup_insert_ne.
  - by rewrite step_get.
  - by rewrite step_list.
  - rewrite step_update.
    destruct (posts (store w) !! id') as [old|] eqn:Hl.
    + rewrite (UpdatePost_Some _ _ old) by done. cbn [snd store posts].
      rewrite lookup_insert_ne; [done | congruence].
    + by rewrite UpdatePost_None.
  - rewrite step_delete.
    destruct (posts (store w) !! id') as [old|] eqn:Hl.
    + rewrite (DeletePost_Some _ old) by done. cbn [snd store posts].
      apply lookup_delete_None. by right.
    + by rewrite DeletePost_None.
Qed.

(** An identifier below the counter that is not live stays so along a run,
    as long as the counter stays an [int64]. *)
Lemma run_absent (ops : list Op) (w : World) (id : Z) :
  posts (store w) !! id = None ->
  id < nextID (store w) ->
  minInt64 <= nextID (store w) ->
  nextID (store w) + Z.of_nat (creates ops) <= maxInt64 ->
  posts (store (run ops w).2) !! id = None.
Proof.
  revert w. induction ops as [|op ops IH]; intros w Hnone Hlt Hmin Hk; [done |].
  rewrite run_world_cons. rewrite creates_cons in Hk.
  pose proof (step_nextID op w) as Hs.
  assert (posts (store (step op w).2) !! id = None) as H1.
  { apply step_absent; [done | lia]. }
  destruct (isCreate op).
  - rewrite wrap64_small in Hs by (unfold minInt64, maxInt64 in *; lia).
    apply IH; [done | lia | lia | lia].
  - apply IH; [done | lia | lia | lia].
Qed.

(** C8: the delete of a live post succeeds and removes it.  After it, and
    after any further sequence of store operations, creates included, a get
    and a delete of that identifier fail with the not-found error: the
    counter is above the identifier and gives it to no later post.  The
    sequence keeps the counter an [int64]. *)
Theorem deleted_post_is_gone (id : Z) (ops : list Op) (w : World) :
  idsBelowCounter w ->
  is_Some (posts (store w) !! id) ->
  nextID (store w) + Z.of_nat (creates ops) <= maxInt64 ->
  exists w1,
    MemoryStore_DeletePost id w = (Ok tt, w1) /\
    posts (store w1) = delete id (posts (store w)) /\
    let w2 := (run ops w1).2 in
    MemoryStore_GetPost id w2 = (Err (notFound id), w2) /\
    MemoryStore_DeletePost id w2 = (Err (notFound id), w2).
Proof.
  intros [Hn Hlive] Hsome Hk. pose proof (Hlive id Hsome) as Hid.
  destruct Hsome as [old Hold].
  rewrite (DeletePost_Some _ old) by done.
  eexists. split; [reflexivity |]. split; [done |]. intros w2.
  assert (posts (store w2) !! id = None) as Hgone.
  { apply run_absent; cbn [store posts nextID].
    - apply lookup_delete_eq.
    - lia.
    - unfold minInt64. lia.
    - done. }
  split.
  - rewrite GetPost_eq. by rewrite Hgone.
  - by apply DeletePost_None.
Qed.

(** *** List *)

Lemma matches_selected (term : string) (p : Post) :
  matches mapUnicodeToLower term p = true <-> selected mapUnicodeToLower term p.
Proof.
  unfold matches, selected, caseInsensitiveSubstring.
  rewrite !orb_true_iff, String.eqb_eq, !Contains_occursIn. tauto.
Qed.

#[local] Instance selected_dec (term : string) (p : Post) :
  Decision (selected mapUnicodeToLower term p).
Proof.
  destruct (matches mapUnicodeToLower term p) eqn:Hm.
  - left. by apply matches_selected.
  - right. intros H. apply matches_selected in H. congruence.
Defined.

(** The loop keeps the selected posts, in the order of the visit. *)
Lemma collect_filter (term : string) (entries : list (Z * Post)) :
  collect mapUnicodeToLower term entries =
    filter (selected mapUnicodeToLower term) (entries.*2).
Proof.
  unfold collect.
  enough (forall acc,
    fold_left
      (fun acc e =>
         if matches mapUnicodeToLower term e.2 then acc ++ [e.2] else acc)
      entries acc =
    acc ++ filter (selected mapUnicodeToLower term) (entries.*2)) as H.
  { by rewrite H. }
  induction entries as [|[id p] es IH]; intros acc.
  - cbn. by rewrite app_nil_r.
  - cbn [fold_left fmap list_fmap snd]. rewrite IH. rewrite filter_cons.
    destruct (matches mapUnicodeToLower term p) eqn:Hm.
    + rewrite decide_True by (by apply matches_selected).
      by rewrite <- app_assoc.
    + rewrite decide_False; [done |].
      intros H. apply matches_selected in H. congruence.
Qed.

(** The empty term selects every post. *)
Lemma filter_selected_empty (l : list Post) :
  filter (selected mapUnicodeToLower "") l = l.
Proof.
  induction l as [|p l IH]; [done |].
  rewrite filter_cons, decide_True by (by left). by rewrite IH.
Qed.

(** In a store whose posts are kept under their own identifier, no two
    posts of a list have the same identifier. *)
Lemma GetAllPosts_ids_distinct
    (order : gmap Z Post -> list (Z * Post)) (term : string) (w : World) :
  keyedByID w ->
  order (posts (store w)) ≡ₚ map_to_list (posts (store w)) ->
  NoDup (ID <$> collect mapUnicodeToLower term (order (posts (store w)))).
Proof.
  intros Hkey Hperm. rewrite collect_filter.
  apply sublist_NoDup with (ID <$> (order (posts (store w))).*2).
  - rewrite Hperm.
    replace (ID <$> (map_to_list (posts (store w))).*2)
      with ((map_to_list (posts (store w))).*1).
    + apply NoDup_fst_map_to_list.
    + rewrite <- list_fmap_compose. apply list_fmap_ext.
      intros i [id p] Hi. cbn. symmetry. apply Hkey.
      apply elem_of_map_to_list. by eapply list_elem_of_lookup_2.
  - apply fmap_sublist, sublist_filter.
Qed.

End StoreFacts.

(** ** Lowering and the case of ASCII letters *)

Section CaseFacts.

Variable mapUnicodeToLower : string -> string.

Local Abbreviation ToLower := (strings.ToLower mapUnicodeToLower).

Lemma string_map_no_upper (s : string) :
  strings.hasUpper s = false -> string_map strings.lowerByte s = s.
Proof.
  unfold strings.hasUpper. induction s as [|c s IH]; [done |].
  cbn [string_existsb string_map]. intros H.
  apply orb_false_iff in H as [Hc Hs].
  unfold strings.lowerByte at 1. rewrite Hc. f_equal. by apply IH.
Qed.

Lemma ToLower_ascii (s : string) :
  strings.isASCII s = true -> ToLower s = string_map strings.lowerByte s.
Proof.
  intros H. unfold strings.ToLower. rewrite H.
  destruct (strings.hasUpper s) eqn:Hu; [done |].
  by rewrite string_map_no_upper.
Qed.

Lemma isUpperByte_range (c : ascii) :
  strings.isUpperByte c = true <-> 65 <= byte_val c <= 90.
Proof. unfold strings.isUpperByte. rewrite andb_true_iff. lia. Qed.

Lemma lowerByte_upper (c : ascii) :
  strings.isUpperByte c = true ->
  byte_val (strings.lowerByte c) = byte_val c + 32.
Proof.
  intros H. unfold strings.lowerByte. rewrite H.
  apply isUpperByte_range in H. apply byte_val_of. lia.
Qed.

Lemma lowerByte_not_upper (c : ascii) :
  strings.isUpperByte c = false -> strings.lowerByte c = c.
Proof. intros H. unfold strings.lowerByte. by rewrite H. Qed.

Lemma lowerByte_sameLetter (c d : ascii) :
  strings.lowerByte c = strings.lowerByte d <-> sameLetter c d.
Proof.
  unfold sameLetter.
  destruct (strings.isUpperByte c) eqn:Hc; destruct (strings.isUpperByte d) eqn:Hd.
  - pose proof (lowerByte_upper c Hc). pose proof (lowerByte_upper d Hd).
    apply isUpperByte_range in Hc, Hd. split.
    + intros H1. left. apply byte_val_inj. rewrite H1 in H. lia.
    + intros [-> | [[_ H1] | [_ H1]]]; [done | lia | lia].
  - pose proof (lowerByte_upper c Hc).
    rewrite (lowerByte_not_upper d Hd). split.
    + intros H1. right. left. split; [done |]. rewrite <- H1. lia.
    + intros [-> | [[_ H1] | [H1 _]]]; [congruence | | done].
      apply byte_val_inj. lia.
  - pose proof (lowerByte_upper d Hd).
    rewrite (lowerByte_not_upper c Hc). split.
    + intros H1. right. right. split; [done |]. rewrite H1. lia.
    + intros [-> | [[H1 _] | [_ H1]]]; [congruence | done |].
      apply byte_val_inj. lia.
  - rewrite (lowerByte_not_upper c Hc), (lowerByte_not_upper d Hd). split.
    + by left.
    + intros [-> | [[H1 _] | [H1 _]]]; [done | done | done].
Qed.

Lemma string_map_equalFold (s t : string) :
  string_map strings.lowerByte s = string_map strings.lowerByte t <->
  equalFold s t.
Proof.
  revert t. induction s as [|c s IH]; intros [|d t]; cbn [string_map].
  - split; [constructor | done].
  - split; [done | inversion 1].
  - split; [done | inversion 1].
  - split.
    + intros [= H1 H2]. constructor; [by apply lowerByte_sameLetter | by apply IH].
    + inversion 1; subst. f_equal; [by apply lowerByte_sameLetter | by apply IH].
Qed.

Lemma string_map_app (f : ascii -> ascii) (s t : string) :
  string_map f (s +:+ t) = string_map f s +:+ string_map f t.
Proof. induction s as [|c s IH]; [done | simpl; by rewrite IH]. Qed.

Lemma string_map_app_inv (f : ascii -> ascii) (s a b : string) :
  string_map f s = a +:+ b ->
  exists s1 s2, s = s1 +:+ s2 /\ string_map f s1 = a /\ string_map f s2 = b.
Proof.
  revert s. induction a as [|c a IH]; intros s H.
  - by exists "", s.
  - destruct s as [|d s]; [done |]. simpl in H. injection H as Hc Hs.
    destruct (IH s Hs) as (s1 & s2 & -> & H1 & H2).
    exists (String d s1), s2. simpl. by rewrite Hc, H1.
Qed.

(** On ASCII strings, a term occurs once both are lowered exactly when a
    substring of the text is the term up to the case of its letters. *)
Lemma caseInsensitiveSubstring_ascii (term text : string) :
  strings.isASCII term = true ->
  strings.isASCII text = true ->
  caseInsensitiveSubstring mapUnicodeToLower term text <->
  occursIgnoringCase term text.
Proof.
  intros Hterm Htext.
  unfold caseInsensitiveSubstring, occursIn, occursIgnoringCase.
  rewrite !ToLower_ascii by done. split.
  - intros (pre & post & H).
    apply string_map_app_inv in H as (s1 & s23 & -> & H1 & H23).
    apply string_map_app_inv in H23 as (s2 & s3 & -> & H2 & H3).
    exists s1, s2, s3. split; [done |]. by apply string_map_equalFold.
  - intros (pre & mid & post & -> & H).
    apply string_map_equalFold in H.
    exists (string_map strings.lowerByte pre), (string_map strings.lowerByte post).
    by rewrite !string_map_app, H.
Qed.

End CaseFacts.

(** ** The properties at sample inputs *)

Section Samples.

Import database handler.

Local Abbreviation memoryStore := (MemoryStore_Store tickingClock noUnicode).

Lemma tickingClock_monotone : monotone tickingClock.
Proof. intros i j Hij. unfold tickingClock. lia. Qed.

Lemma twoPosts_wellFormed : wellFormed tickingClock twoPosts.
Proof.
  apply run_wellFormed; [apply NewWorld_wellFormed |].
  vm_compute. discriminate.
Qed.

(** C3, at an input where the code departs from it: on a new store, with a
    clock that advances between two readings, the create of a valid draft
    returns 1 and the get of 1 returns the draft's fields under the
    identifier 1, but the creation instant is the first reading the create
    took and the update instant the second: the two differ. *)
Theorem create_stamps_two_clock_readings :
  let w1 := (MemoryStore_CreatePost tickingClock goBasics NewWorld).2 in
  (MemoryStore_CreatePost tickingClock goBasics NewWorld).1 = Ok 1 /\
  exists p,
    MemoryStore_GetPost 1 w1 = (Ok p, w1) /\
    Title p = "Go Basics" /\ Content p = "intro" /\ Category p = "Tech" /\
    Tags p = [] /\ ID p = 1 /\
    CreatedAt p = tickingClock 0 /\ UpdatedAt p = tickingClock 1 /\
    CreatedAt p <> UpdatedAt p.
Proof.
  intros w1.
  destruct (create_then_get tickingClock goBasics NewWorld) as [Hc Hg].
  split; [exact Hc |]. eexists. split; [exact Hg |]. by repeat split.
Qed.

(** C2, as stated, fails: the token [-1] is no numeral of a non-negative
    integer, yet GET /posts/-1 on a new store is answered with 404. *)
Lemma negative_token_is_looked_up :
  Path (bareRequest "GET" "/posts/-1") = "/posts/" +:+ "-1" /\
  ~ denotesNonNegativeInt64 "-1" /\
  StatusCode
    (ServeHTTP (Store_S := memoryStore) decodeNothing
       (bareRequest "GET" "/posts/-1") NewWorld).1 = StatusNotFound /\
  StatusNotFound <> StatusBadRequest.
Proof.
  split; [done |]. split; [| by split].
  intros (z & Hz & Hpos). vm_compute in Hz. injection Hz as <-. lia.
Qed.

Lemma ServeHTTP_token_witness :
  "abc" <> "" /\
  Path (bareRequest "GET" "/posts/abc") = "/posts/" +:+ "abc" /\
  (forall z, ~ denotesInt64 "abc" z) /\
  ServeHTTP (Store_S := memoryStore) decodeNothing
    (bareRequest "GET" "/posts/abc") twoPosts
  = (http_Error "Invalid post ID" StatusBadRequest, twoPosts).
Proof.
  assert (forall z, ~ denotesInt64 "abc" z) as Hno.
  { intros z [Hz _]. discriminate. }
  split; [done |]. split; [done |]. split; [exact Hno |].
  apply (ServeHTTP_token (Store_S := memoryStore) decodeNothing
           (bareRequest "GET" "/posts/abc") twoPosts "abc");
    [done | done | exact Hno].
Defined.

Lemma created_ids_count_up_from_one_witness :
  Z.of_nat
    (creates [OpCreate goBasics; OpCreate cooking; OpDelete 1;
              OpCreate goBasics]) <= maxInt64 /\
  createdIDs
    (run tickingClock noUnicode
       [OpCreate goBasics; OpCreate cooking; OpDelete 1; OpCreate goBasics]
       NewWorld).1 = [1; 2; 3].
Proof.
  assert (Z.of_nat
    (creates [OpCreate goBasics; OpCreate cooking; OpDelete 1;
              OpCreate goBasics]) <= maxInt64) as Hk.
  { unfold maxInt64. vm_compute. discriminate. }
  split; [exact Hk |].
  apply (created_ids_count_up_from_one tickingClock noUnicode _ Hk).
Defined.

Lemma update_of_an_absent_post_witness :
  posts (store twoPosts) !! 3 = None /\
  MemoryStore_UpdatePost tickingClock 3 cooking twoPosts
  = (Err (notFound 3), twoPosts).
Proof.
  split; [reflexivity |].
  apply (update_of_an_absent_post tickingClock noUnicode decodeNothing
           (bareRequest "PUT" "/posts/3") 3 cooking twoPosts eq_refl).
Defined.

Lemma deleted_post_is_gone_witness :
  idsBelowCounter twoPosts /\
  is_Some (posts (store twoPosts) !! 1) /\
  nextID (store twoPosts) +
    Z.of_nat (creates [OpCreate goBasics; OpGet 1]) <= maxInt64 /\
  exists w1,
    MemoryStore_DeletePost 1 twoPosts = (Ok tt, w1) /\
    let w2 := (run tickingClock noUnicode [OpCreate goBasics; OpGet 1] w1).2 in
    MemoryStore_GetPost 1 w2 = (Err (notFound 1), w2) /\
    MemoryStore_DeletePost 1 w2 = (Err (notFound 1), w2).
Proof.
  assert (idsBelowCounter twoPosts) as Hids by apply twoPosts_wellFormed.
  assert (is_Some (posts (store twoPosts) !! 1)) as Hlive by (by eexists).
  assert (nextID (store twoPosts) +
    Z.of_nat (creates [OpCreate goBasics; OpGet 1]) <= maxInt64) as Hk.
  { unfold maxInt64. vm_compute. discriminate. }
  split; [exact Hids |]. split; [exact Hlive |]. split; [exact Hk |].
  destruct (deleted_post_is_gone tickingClock noUnicode 1
              [OpCreate goBasics; OpGet 1] twoPosts Hids Hlive Hk)
    as (w1 & H1 & _ & H2).
  exists w1. by split.
Defined.

Lemma invalid_body_is_rejected_before_the_store_witness :
  validationError (decodeNothing (Body (bareRequest "PUT" "/posts/999")))
  = Some "Invalid request body" /\
  UpdatePost (Store_S := memoryStore) decodeNothing
    (bareRequest "PUT" "/posts/999") 999 twoPosts
  = (http_Error "Invalid request body" StatusBadRequest, twoPosts).
Proof.
  split; [reflexivity |].
  apply (invalid_body_is_rejected_before_the_store (Store_S := memoryStore)
           decodeNothing (bareRequest "PUT" "/posts/999") 999 twoPosts 0
           "Invalid request body" eq_refl).
Defined.

(** On the bare path the answer is not the one of the list or of the create
    operation. *)
Example bare_path_is_not_the_list :
  StatusCode
    (ServeHTTP (Store_S := memoryStore) decodeNothing
       (bareRequest "GET" "/posts") twoPosts).1 = 400 /\
  StatusCode
    (GetAllPosts (Store_S := memoryStore) (bareRequest "GET" "/posts")
       twoPosts).1 = 200.
Proof. by split. Qed.

(** *** A session *)

(** After the creates of the two sample posts, which returned 1 and 2, a
    search for [tech] lists the first post only. *)
Example session_search :
  createdIDs
    (run tickingClock noUnicode [OpCreate goBasics; OpCreate cooking] NewWorld).1
  = [1; 2] /\
  ID <$> match (MemoryStore_GetAllPosts noUnicode "tech" twoPosts).1 with
         | Ok ps => ps
         | Err _ => []
         end = [1].
Proof. by split. Qed.

(** GET /posts/3 is answered with 404. *)
Example session_get_absent :
  StatusCode
    (ServeHTTP (Store_S := memoryStore) decodeNothing
       (bareRequest "GET" "/posts/3") twoPosts).1 = 404.
Proof. reflexivity. Qed.

(** PUT /posts/1 with a body that decodes to an empty title is answered
    with 400, and the store is left as it was. *)
Example session_put_untitled (jsonDecode : string -> option Post) (body : string) :
  jsonDecode body =
    Some {| ID := 0; Title := ""; Content := "intro"; Category := "";
            Tags := []; CreatedAt := 0; UpdatedAt := 0 |} ->
  ServeHTTP (Store_S := memoryStore) jsonDecode
    {| Method := "PUT"; Path := "/posts/1"; Query := ∅; Body := body |} twoPosts
  = (http_Error requiredMessage 400, twoPosts).
Proof.
  intros Hd. unfold ServeHTTP. cbn -[twoPosts].
  unfold UpdatePost. cbn -[twoPosts]. by rewrite Hd.
Qed.

(** DELETE /posts/1 is answered with 204, and GET /posts/1 then with 404. *)
Example session_delete_then_get :
  let '(deleted, w1) :=
    ServeHTTP (Store_S := memoryStore) decodeNothing
      (bareRequest "DELETE" "/posts/1") twoPosts in
  StatusCode deleted = 204 /\
  StatusCode
    (ServeHTTP (Store_S := memoryStore) decodeNothing
       (bareRequest "GET" "/posts/1") w1).1 = 404.
Proof. by split. Qed.

(** The collection is served under [/posts/]: the list of the two posts, and
    405 for a method other than GET and POST. *)
Example session_collection :
  StatusCode
    (ServeHTTP (Store_S := memoryStore) decodeNothing
       (bareRequest "GET" "/posts/") twoPosts).1 = 200 /\
  StatusCode
    (ServeHTTP (Store_S := memoryStore) decodeNothing
       (bareRequest "DELETE" "/posts/") twoPosts).1 = 405.
Proof. by split. Qed.

End Samples.


(** ** The handler on the in-memory store *)

Section HandlerOnMemoryStore.

Import database handler.

Variable clock : nat -> Time.
Variable mapUnicodeToLower : string -> string.
Variable jsonDecode : string -> option Post.

Local Abbreviation memoryStore := (MemoryStore_Store clock mapUnicodeToLower).
Local Abbreviation Serve := (ServeHTTP (Store_S := memoryStore) jsonDecode).

#[local] Existing Instance selected_dec.

Lemma validationError_None (body : string) :
  validationError (jsonDecode body) = None ->
  exists post,
    jsonDecode body = Some post /\
    String.eqb (Title post) "" = false /\ String.eqb (Content post) "" = false.
Proof.
  unfold validationError. destruct (jsonDecode body) as [post|]; [| done].
  destruct (String.eqb (Title post) "") eqn:Ht; [done |].
  destruct (String.eqb (Content post) "") eqn:Hc; [done |].
  intros _. by exists post.
Qed.

Lemma validationError_valid (body : string) (post : Post) :
  jsonDecode body = Some post -> Title post <> "" -> Content post <> "" ->
  validationError (jsonDecode body) = None.
Proof.
  intros -> Ht Hc. unfold validationError.
  apply String.eqb_neq in Ht, Hc. by rewrite Ht, Hc.
Qed.

Lemma mem_GetPost (r : Request) (id : Z) (w : World) :
  GetPost (Store_S := memoryStore) r id w =
    (match posts (store w) !! id with
     | Some post => writeJSON StatusOK (JSONPost post)
     | None =>
         http_Error ("Post with id " +:+ strconv.FormatInt id +:+ " not found")
           StatusNotFound
     end, w).
Proof.
  unfold GetPost, bind.
  change (database.GetPost id w) with (MemoryStore_GetPost id w).
  rewrite GetPost_eq. by destruct (posts (store w) !! id).
Qed.

Lemma mem_GetAllPosts (r : Request) (w : World) :
  GetAllPosts (Store_S := memoryStore) r w =
    (writeJSON StatusOK
       (JSONPosts
          (collect mapUnicodeToLower (Values_Get (Query r) "term")
             (map_to_list (posts (store w))))), w).
Proof. reflexivity. Qed.

Lemma mem_DeletePost (r : Request) (id : Z) (w : World) :
  DeletePost (Store_S := memoryStore) r id w =
    match posts (store w) !! id with
    | Some _ =>
        ({| StatusCode := StatusNoContent; ContentType := ""; Written := Empty |},
         {| store := {| posts := delete id (posts (store w));
                        nextID := nextID (store w) |};
            ticks := ticks w |})
    | None => (http_Error (notFound id) StatusNotFound, w)
    end.
Proof.
  unfold DeletePost, bind.
  change (database.DeletePost id w) with (MemoryStore_DeletePost id w).
  destruct (posts (store w) !! id) as [old|] eqn:Hl.
  - by rewrite (DeletePost_Some _ old).
  - rewrite DeletePost_None by done. by rewrite notFound_contains.
Qed.

Lemma mem_UpdatePost (r : Request) (id : Z) (post : Post) (w : World) :
  jsonDecode (Body r) = Some post ->
  validationError (jsonDecode (Body r)) = None ->
  UpdatePost (Store_S := memoryStore) jsonDecode r id w =
    match posts (store w) !! id with
    | Some old =>
        let new :=
          {| ID := ID old; Title := Title post; Content := Content post;
             Category := Category post; Tags := Tags post;
             CreatedAt := CreatedAt old; UpdatedAt := clock (ticks w) |} in
        (writeJSON StatusOK (JSONPost new),
         {| store := {| posts := <[id := new]> (posts (store w));
                        nextID := nextID (store w) |};
            ticks := Datatypes.S (ticks w) |})
    | None => (http_Error (notFound id) StatusNotFound, w)
    end.
Proof.
  intros Hd Hv.
  rewrite (UpdatePost_valid jsonDecode r id w post) by done.
  change (database.UpdatePost id post w)
    with (MemoryStore_UpdatePost clock id post w).
  destruct (posts (store w) !! id) as [old|] eqn:Hl.
  - by rewrite (UpdatePost_Some _ _ _ old).
  - rewrite UpdatePost_None by done. by rewrite notFound_contains.
Qed.

Lemma mem_CreatePost (r : Request) (post : Post) (w : World) :
  jsonDecode (Body r) = Some post ->
  validationError (jsonDecode (Body r)) = None ->
  CreatePost (Store_S := memoryStore) jsonDecode r w =
    (writeJSON StatusCreated
       (JSONPost
          {| ID := nextID (store w); Title := Title post;
             Content := Content post; Category := Category post;
             Tags := Tags post; CreatedAt := clock (ticks w);
             UpdatedAt := clock (Datatypes.S (ticks w)) |}),
     (MemoryStore_CreatePost clock post w).2).
Proof.
  intros Hd Hv. destruct (validationError_None _ Hv) as (post' & Hd' & Ht & Hc).
  rewrite Hd in Hd'. injection Hd' as <-.
  unfold CreatePost. rewrite Hd, Ht, Hc. cbn [orb]. unfold bind.
  change (database.CreatePost post w) with (MemoryStore_CreatePost clock post w).
  destruct (create_then_get clock post w) as [H1 H2].
  destruct (MemoryStore_CreatePost clock post w) as [created w1] eqn:Hcr.
  cbn [fst snd] in *. subst created.
  change (database.GetPost (nextID (store w)) w1)
    with (MemoryStore_GetPost (nextID (store w)) w1).
  by rewrite H2.
Qed.

Lemma Serve_item (r : Request) (w : World) (tok : string) (id : Z) :
  Path r = "/posts/" +:+ tok -> denotesInt64 tok id ->
  Serve r w = itemRoute (Store_S := memoryStore) jsonDecode r id w.
Proof.
  intros Hp [Hz [H1 H2]].
  assert (tok <> "") as Hne by (by intros ->).
  rewrite (ServeHTTP_numeral jsonDecode r w tok), Hz by done.
  apply Z.leb_le in H1, H2. by rewrite H1, H2.
Qed.

Lemma Serve_collection_GET (r : Request) (w : World) :
  Method r = "GET" -> strings.TrimPrefix (Path r) "/posts/" = "" ->
  Serve r w = GetAllPosts (Store_S := memoryStore) r w.
Proof.
  intros Hm Hp. rewrite (ServeHTTP_collection jsonDecode) by done.
  unfold collectionRoute. by rewrite Hm.
Qed.

(** X1: a GET request never changes the in-memory store, whatever its path,
    its query and its body, and it is answered with 200, 400 or 404. *)
Theorem get_requests_only_read (r : Request) (w : World) :
  Method r = "GET" ->
  (Serve r w).2 = w /\
  (StatusCode (Serve r w).1 = 200 \/ StatusCode (Serve r w).1 = 400 \/
   StatusCode (Serve r w).1 = 404).
Proof.
  intros Hm.
  destruct (decide (strings.TrimPrefix (Path r) "/posts/" = "")) as [He | He].
  - rewrite Serve_collection_GET by done. rewrite mem_GetAllPosts. by split; [| left].
  - rewrite (ServeHTTP_item jsonDecode) by done.
    destruct (strconv.ParseInt _) as [id|e]; [| by split; [| right; left]].
    unfold itemRoute. rewrite Hm. cbn [String.eqb Ascii.eqb Bool.eqb MethodGet].
    rewrite mem_GetPost.
    destruct (posts (store w) !! id); (split; [done |]); [by left | by right; right].
Qed.

(** X4: a DELETE on [/posts/] followed by a numeral of a live identifier is
    answered with 204 and nothing written; the post is removed and the
    counter kept.  A GET or a DELETE on a numeral of that identifier is then
    answered with 404 and leaves the store as it is. *)
Theorem delete_request_removes
    (r r' : Request) (tok tok' : string) (id : Z) (w : World) :
  Method r = "DELETE" -> Path r = "/posts/" +:+ tok -> denotesInt64 tok id ->
  is_Some (posts (store w) !! id) ->
  Method r' = "GET" \/ Method r' = "DELETE" ->
  Path r' = "/posts/" +:+ tok' -> denotesInt64 tok' id ->
  exists w1,
    Serve r w =
      ({| StatusCode := StatusNoContent; ContentType := ""; Written := Empty |},
       w1) /\
    posts (store w1) = delete id (posts (store w)) /\
    nextID (store w1) = nextID (store w) /\
    StatusCode (Serve r' w1).1 = StatusNotFound /\
    (Serve r' w1).2 = w1.
Proof.
  intros Hm Hp Htok [old Hold] Hm' Hp' Htok'.
  rewrite (Serve_item r w tok id) by done.
  unfold itemRoute. rewrite Hm.
  cbn [String.eqb Ascii.eqb Bool.eqb MethodGet MethodPut MethodDelete].
  rewrite mem_DeletePost, Hold.
  eexists. split; [reflexivity |]. split; [done |]. split; [done |].
  rewrite (Serve_item r' _ tok' id) by done. unfold itemRoute.
  destruct Hm' as [-> | ->];
    cbn [String.eqb Ascii.eqb Bool.eqb MethodGet MethodPut MethodDelete].
  - rewrite mem_GetPost. cbn [store posts]. by rewrite lookup_delete_eq.
  - rewrite mem_DeletePost. cbn [store posts]. by rewrite lookup_delete_eq.
Qed.

(** X5: a PUT on a numeral of a live identifier, with a body that passes the
    validation, is answered with 200 and the updated post: the body's four
    text fields, the stored identifier and creation instant, and a new
    reading of the clock as update instant.  A GET on a numeral of that
    identifier is then answered with that post. *)
Theorem put_request_updates
    (r r' : Request) (tok tok' : string) (id : Z) (post old : Post) (w : World) :
  Method r = "PUT" -> Path r = "/posts/" +:+ tok -> denotesInt64 tok id ->
  jsonDecode (Body r) = Some post -> Title post <> "" -> Content post <> "" ->
  posts (store w) !! id = Some old ->
  Method r' = "GET" -> Path r' = "/posts/" +:+ tok' -> denotesInt64 tok' id ->
  exists p w1,
    Serve r w = (writeJSON StatusOK (JSONPost p), w1) /\
    Title p = Title post /\ Content p = Content post /\
    Category p = Category post /\ Tags p = Tags post /\
    ID p = ID old /\ CreatedAt p = CreatedAt old /\
    UpdatedAt p = clock (ticks w) /\
    Serve r' w1 = (writeJSON StatusOK (JSONPost p), w1).
Proof.
  intros Hm Hp Htok Hd Ht Hc Hold Hm' Hp' Htok'.
  pose proof (validationError_valid _ _ Hd Ht Hc) as Hv.
  rewrite (Serve_item r w tok id) by done.
  unfold itemRoute. rewrite Hm.
  cbn [String.eqb Ascii.eqb Bool.eqb MethodGet MethodPut MethodDelete].
  rewrite (mem_UpdatePost r id post w) by done. rewrite Hold. cbv zeta.
  eexists _, _. split; [reflexivity |]. cbn [ID Title Content Category Tags
    CreatedAt UpdatedAt].
  repeat (split; [done |]).
  rewrite (Serve_item r' _ tok' id) by done. unfold itemRoute. rewrite Hm'.
  cbn [String.eqb Ascii.eqb Bool.eqb MethodGet].
  rewrite mem_GetPost. cbn [store posts]. by rewrite lookup_insert_eq.
Qed.

(** X6: a GET on [/posts/] is answered with 200 and the live posts the first
    value of the query key [term] selects, each as many times as it is
    stored; without that key, or with no value for it, these are all the
    live posts.  The store is left as it is. *)
Theorem list_request_selects (r : Request) (w : World) :
  Method r = "GET" -> Path r = "/posts/" ->
  exists ps,
    Serve r w = (writeJSON StatusOK (JSONPosts ps), w) /\
    ps ≡ₚ filter (selected mapUnicodeToLower (Values_Get (Query r) "term"))
            ((map_to_list (posts (store w))).*2) /\
    (Query r !! "term" = None \/ Query r !! "term" = Some [] ->
     ps ≡ₚ (map_to_list (posts (store w))).*2).
Proof.
  intros Hm Hp. rewrite Serve_collection_GET by (done || by rewrite Hp).
  rewrite mem_GetAllPosts. eexists. split; [reflexivity |].
  rewrite collect_filter. split; [done |].
  intros Hq. replace (Values_Get (Query r) "term") with "".
  - by rewrite filter_selected_empty.
  - unfold Values_Get. by destruct Hq as [-> | ->].
Qed.

End HandlerOnMemoryStore.

(** ** The handler on any store *)

Section HandlerOnAnyStore.

Import database handler.

Context {S : Type} {Store_S : Store S}.
Variable jsonDecode : string -> option Post.

Lemma ServeHTTP_denoted (r : Request) (w : S) (tok : string) (id : Z) :
  Path r = "/posts/" +:+ tok -> denotesInt64 tok id ->
  ServeHTTP jsonDecode r w = itemRoute jsonDecode r id w.
Proof.
  intros Hp [Hz [H1 H2]].
  assert (tok <> "") as Hne by (by intros ->).
  rewrite (ServeHTTP_numeral jsonDecode r w tok), Hz by done.
  apply Z.leb_le in H1, H2. by rewrite H1, H2.
Qed.

Lemma itemRoute_other_method (r : Request) (id : Z) (w : S) :
  Method r <> "GET" -> Method r <> "PUT" -> Method r <> "DELETE" ->
  itemRoute jsonDecode r id w =
    (http_Error "Method not allowed" StatusMethodNotAllowed, w).
Proof.
  intros H1 H2 H3. unfold itemRoute, MethodGet, MethodPut, MethodDelete.
  apply String.eqb_neq in H1, H2, H3. by rewrite H1, H2, H3.
Qed.

End HandlerOnAnyStore.

Section HandlerOnAnyStoreFacts.

Import database handler.

Context {S : Type} {Store_S : Store S}.
Variable jsonDecode : string -> option Post.

(** X7: on the path of a post, [/posts/] followed by a numeral of a 64-bit
    integer, a method other than GET, PUT and DELETE (POST included) is
    answered with 405, and this without a call of the store: the state is
    returned as it was, and a store that counts its calls has received
    none. *)
Theorem item_path_other_method
    (r : Request) (tok : string) (id : Z) (w : S) (calls : nat) :
  Path r = "/posts/" +:+ tok -> denotesInt64 tok id ->
  Method r <> "GET" -> Method r <> "PUT" -> Method r <> "DELETE" ->
  ServeHTTP jsonDecode r w =
    (http_Error "Method not allowed" StatusMethodNotAllowed, w) /\
  ServeHTTP (Store_S := CountingStore Store_S) jsonDecode r (w, calls) =
    (http_Error "Method not allowed" StatusMethodNotAllowed, (w, calls)).
Proof.
  intros Hp Htok H1 H2 H3. split.
  - rewrite (ServeHTTP_denoted jsonDecode r w tok id) by done.
    by apply itemRoute_other_method.
  - rewrite (ServeHTTP_denoted (Store_S := CountingStore Store_S)
               jsonDecode r (w, calls) tok id) by done.
    by apply (itemRoute_other_method (Store_S := CountingStore Store_S)).
Qed.

(** X8: the answer depends on the token after [/posts/] through the integer
    it denotes only: two requests with the same method and body, and with
    numerals of the same integer (with or without a plus sign or leading
    zeros), get the same answer and leave the same state. *)
Theorem same_integer_same_answer
    (r1 r2 : Request) (tok1 tok2 : string) (id : Z) (w : S) :
  Method r1 = Method r2 -> Body r1 = Body r2 ->
  Path r1 = "/posts/" +:+ tok1 -> Path r2 = "/posts/" +:+ tok2 ->
  denotesInt64 tok1 id -> denotesInt64 tok2 id ->
  ServeHTTP jsonDecode r1 w = ServeHTTP jsonDecode r2 w.
Proof.
  intros Hm Hb Hp1 Hp2 Ht1 Ht2.
  rewrite (ServeHTTP_denoted jsonDecode r1 w tok1 id) by done.
  rewrite (ServeHTTP_denoted jsonDecode r2 w tok2 id) by done.
  unfold itemRoute, GetPost, UpdatePost, DeletePost. by rewrite Hm, Hb.
Qed.

End HandlerOnAnyStoreFacts.

(** ** More on the operations of the in-memory store *)

Section StoreExtras.

Import database.

Variable clock : nat -> Time.
Variable mapUnicodeToLower : string -> string.

Local Abbreviation run := (database.run clock mapUnicodeToLower).
Local Abbreviation step := (database.step clock mapUnicodeToLower).

Lemma step_lookup_other (op : Op) (id : Z) (w : World) :
  ~ targets op id ->
  (isCreate op = true -> nextID (store w) <> id) ->
  posts (store (step op w).2) !! id = posts (store w) !! id.
Proof.
  intros Ht Hc. destruct op as [d|id'|term|id' d|id']; cbn in Ht.
  - rewrite step_create, CreatePost_eq. cbn [snd store posts].
    rewrite lookup_insert_ne; [done |]. by apply Hc.
  - by rewrite step_get.
  - by rewrite step_list.
  - rewrite step_update.
    destruct (posts (store w) !! id') as [old|] eqn:Hl.
    + rewrite (UpdatePost_Some _ _ _ old) by done. cbn [snd store posts].
      by rewrite lookup_insert_ne.
    + by rewrite UpdatePost_None.
  - rewrite step_delete.
    destruct (posts (store w) !! id') as [old|] eqn:Hl.
    + rewrite (DeletePost_Some _ old) by done. cbn [snd store posts].
      by rewrite lookup_delete_ne.
    + by rewrite DeletePost_None.
Qed.

(** X11: the create and the update read the title, the content, the category
    and the tags of the draft only: two drafts that agree on these four give
    the same result and the same store, whatever identifier and instants
    they carry. *)
Theorem server_fields_of_draft_ignored (d1 d2 : Post) (id : Z) (w : World) :
  Title d1 = Title d2 -> Content d1 = Content d2 ->
  Category d1 = Category d2 -> Tags d1 = Tags d2 ->
  MemoryStore_CreatePost clock d1 w = MemoryStore_CreatePost clock d2 w /\
  MemoryStore_UpdatePost clock id d1 w = MemoryStore_UpdatePost clock id d2 w.
Proof.
  intros H1 H2 H3 H4. split.
  - rewrite !CreatePost_eq. by rewrite H1, H2, H3, H4.
  - destruct (posts (store w) !! id) as [old|] eqn:Hl.
    + rewrite !(UpdatePost_Some _ _ _ old) by done. by rewrite H1, H2, H3, H4.
    + by rewrite !UpdatePost_None.
Qed.

(** X12: the counter is an [int64] that wraps around: on a store whose
    counter stands at [2^63 - 1], two creates return [2^63 - 1] and then
    [-2^63], so the identifiers stop increasing there. *)
Theorem counter_wraps_around (d1 d2 : Post) (w : World) :
  nextID (store w) = maxInt64 ->
  createdIDs (run [OpCreate d1; OpCreate d2] w).1 = [maxInt64; minInt64] /\
  minInt64 < maxInt64.
Proof.
  intros Hn. split; [| done].
  rewrite !run_createdIDs_cons. cbn [isCreate app database.run ret fst createdIDs].
  rewrite step_nextID. cbn [isCreate]. by rewrite Hn.
Qed.

Lemma deletions_cons (o : Outcome) (os : list Outcome) :
  deletions (o :: os) = (deletions [o] + deletions os)%nat.
Proof. destruct o as [?|?|?|?|[?|?]]; done. Qed.

Lemma size_delete_live (m : gmap Z Post) (id : Z) :
  is_Some (m !! id) -> Datatypes.S (size (delete id m)) = size m.
Proof.
  intros [p Hp].
  assert (size m = size (<[id := p]> (delete id m))) as ->.
  { by rewrite insert_delete_eq, insert_id. }
  rewrite map_size_insert_None; [done |]. apply lookup_delete_eq.
Qed.

(** One operation: the collection grows by one at a create and shrinks by
    one at a delete that succeeds. *)
Lemma step_size (op : Op) (w : World) :
  idsBelowCounter w ->
  (size (posts (store (step op w).2)) + deletions [(step op w).1])%nat =
  (size (posts (store w)) + (if isCreate op then 1 else 0))%nat.
Proof.
  intros [Hn Hlive]. destruct op as [d|id|term|id d|id]; cbn [isCreate].
  - rewrite step_create, CreatePost_eq. cbn [fst snd store posts deletions].
    rewrite map_size_insert_None; [lia |].
    destruct (posts (store w) !! nextID (store w)) eqn:Hl; [| done].
    specialize (Hlive _ (ex_intro _ _ Hl)). lia.
  - cbn [database.step]. unfold bind, ret. rewrite GetPost_eq. cbn. lia.
  - cbn. lia.
  - cbn [database.step]. unfold bind, ret.
    destruct (posts (store w) !! id) as [old|] eqn:Hl.
    + rewrite (UpdatePost_Some _ _ _ old) by done. cbv zeta.
      cbn [fst snd store posts deletions].
      rewrite map_size_insert_Some by done. lia.
    + rewrite UpdatePost_None by done. cbn. lia.
  - cbn [database.step]. unfold bind, ret.
    destruct (posts (store w) !! id) as [old|] eqn:Hl.
    + rewrite (DeletePost_Some _ old) by done. cbn [fst snd store posts deletions].
      rewrite <- (size_delete_live (posts (store w)) id) by done. lia.
    + rewrite DeletePost_None by done. cbn. lia.
Qed.

Lemma run_deletions_cons (op : Op) (ops : list Op) (w : World) :
  deletions (run (op :: ops) w).1 =
    (deletions [(step op w).1] + deletions (run ops (step op w).2).1)%nat.
Proof.
  rewrite run_cons. destruct (step op w) as [o w1]. cbn [fst snd].
  destruct (run ops w1) as [os w2]. cbn [fst snd]. apply deletions_cons.
Qed.

(** X13: along a sequence of operations that keeps the counter an [int64],
    the number of live posts is the number there was, plus the number of
    creates, minus the number of deletes that succeeded: nothing else adds
    or removes a post, and no create overwrites one. *)
Theorem collection_size (ops : list Op) (w : World) :
  wellFormed clock w ->
  nextID (store w) + Z.of_nat (creates ops) <= maxInt64 ->
  (size (posts (store (run ops w).2)) + deletions (run ops w).1)%nat =
  (size (posts (store w)) + creates ops)%nat.
Proof.
  revert w. induction ops as [|op ops IH]; intros w Hw Hk.
  - cbn. lia.
  - rewrite run_world_cons, run_deletions_cons. rewrite creates_cons in *.
    pose proof (step_size op w (proj1 Hw)) as Hs.
    pose proof (step_nextID clock mapUnicodeToLower op w) as Hnx.
    pose proof Hw as ([Hn _] & _).
    assert (wellFormed clock (step op w).2) as Hw1.
    { apply step_wellFormed; [done |]. intros Hc. rewrite Hc in Hk. lia. }
    specialize (IH _ Hw1).
    destruct (isCreate op).
    + rewrite wrap64_small in Hnx by (unfold minInt64, maxInt64 in *; lia).
      rewrite Hnx in IH. specialize (IH ltac:(lia)). lia.
    + rewrite Hnx in IH. specialize (IH ltac:(lia)). lia.
Qed.

(** One operation keeps the identifier and the creation instant of a post it
    does not delete, and does not move its update instant backwards. *)
Lemma step_keeps_creation (op : Op) (id : Z) (p : Post) (w : World) :
  wellFormed clock w ->
  posts (store w) !! id = Some p ->
  match posts (store (step op w).2) !! id with
  | Some p1 =>
      ID p1 = ID p /\ CreatedAt p1 = CreatedAt p /\
      (monotone clock -> UpdatedAt p <= UpdatedAt p1)
  | None => True
  end.
Proof.
  intros ([Hn Hlive] & Hkey & Hst) Hp.
  assert (~ targets op id ->
          posts (store (step op w).2) !! id = Some p) as Hother.
  { intros Ht. rewrite step_lookup_other; [done | done |].
    intros _. specialize (Hlive id (ex_intro _ p Hp)). lia. }
  assert (~ targets op id ->
          match posts (store (step op w).2) !! id with
          | Some p1 =>
              ID p1 = ID p /\ CreatedAt p1 = CreatedAt p /\
              (monotone clock -> UpdatedAt p <= UpdatedAt p1)
          | None => True
          end) as Hsame.
  { intros Ht. rewrite (Hother Ht). split; [done |]. split; [done | lia]. }
  destruct op as [d|id'|term|id' d|id'].
  - apply Hsame. cbn. tauto.
  - apply Hsame. cbn. tauto.
  - apply Hsame. cbn. tauto.
  - destruct (decide (id' = id)) as [-> | Hne].
    + rewrite step_update, (UpdatePost_Some _ _ _ p) by done.
      cbn [snd store posts]. rewrite lookup_insert_eq. cbn.
      split; [done |]. split; [done |]. intros Hmono.
      destruct (Hst id p Hp) as (i & j & Hij & _ & ->). apply Hmono. lia.
    + apply Hsame. cbn. tauto.
  - destruct (decide (id' = id)) as [-> | Hne].
    + rewrite step_delete, (DeletePost_Some _ p) by done.
      cbn [snd store posts]. by rewrite lookup_delete_eq.
    + apply Hsame. cbn. tauto.
Qed.

(** Along a run that keeps the counter an [int64], a post that is there
    before and after has kept its identifier and its creation instant. *)
Lemma run_keeps_creation (ops : list Op) (id : Z) (p p' : Post) (w : World) :
  wellFormed clock w ->
  nextID (store w) + Z.of_nat (creates ops) <= maxInt64 ->
  posts (store w) !! id = Some p ->
  posts (store (run ops w).2) !! id = Some p' ->
  ID p' = ID p /\ CreatedAt p' = CreatedAt p /\
  (monotone clock -> UpdatedAt p <= UpdatedAt p').
Proof.
  revert w p. induction ops as [|op ops IH]; intros w p Hw Hk Hp Hp'.
  - cbn in Hp'. rewrite Hp in Hp'. injection Hp' as <-. split; [done |].
    split; [done | lia].
  - rewrite run_world_cons in Hp'. rewrite creates_cons in Hk.
    pose proof (step_keeps_creation op id p w Hw Hp) as Hs.
    pose proof (step_nextID clock mapUnicodeToLower op w) as Hnx.
    pose proof Hw as ([Hn Hlive] & _).
    specialize (Hlive id (ex_intro _ p Hp)).
    assert (wellFormed clock (step op w).2) as Hw1.
    { apply step_wellFormed; [done |]. intros Hc. rewrite Hc in Hk. lia. }
    assert (nextID (store (step op w).2) + Z.of_nat (creates ops) <= maxInt64
            /\ nextID (store w) <= nextID (store (step op w).2)) as [Hk1 Hge].
    { destruct (isCreate op).
      - rewrite wrap64_small in Hnx by (unfold minInt64, maxInt64 in *; lia). lia.
      - lia. }
    destruct (posts (store (step op w).2) !! id) as [p1|] eqn:Hp1.
    + destruct Hs as (H1 & H2 & H3).
      destruct (IH _ p1 Hw1 Hk1 Hp1 Hp') as (H4 & H5 & H6).
      split; [congruence |]. split; [congruence |].
      intros Hmono. specialize (H3 Hmono). specialize (H6 Hmono). lia.
    + rewrite run_absent in Hp'; [done | done | lia | | done].
      unfold minInt64. lia.
Qed.

End StoreExtras.

(** ** The handler's tests: the mock store *)

Section MockFacts.

Import database handler.

Variable clock : nat -> Time.
Variable jsonDecode : string -> option Post.

Local Abbreviation mockWorldStore := (handler_test.mockStore_Store clock).

(** X15: the create of the mock store, when no error is set, takes one
    reading of the clock for both instants: a get of the returned identifier
    yields the draft's four fields under that identifier with a creation
    instant equal to the update instant, whatever the clock. *)
Theorem mock_create_stamps_once (draft : Post) (w : handler_test.MockWorld) :
  handler_test.err (handler_test.mock w) = None ->
  exists p w1,
    handler_test.mockStore_CreatePost clock draft w =
      (Ok (handler_test.nextID (handler_test.mock w)), w1) /\
    handler_test.mockStore_GetPost
      (handler_test.nextID (handler_test.mock w)) w1 = (Ok p, w1) /\
    Title p = Title draft /\ Content p = Content draft /\
    Category p = Category draft /\ Tags p = Tags draft /\
    ID p = handler_test.nextID (handler_test.mock w) /\
    CreatedAt p = clock (handler_test.ticks w) /\
    CreatedAt p = UpdatedAt p.
Proof.
  intros He.
  unfold handler_test.mockStore_CreatePost, handler_test.mockStore_GetPost,
    bind, ret, handler_test.getMock, handler_test.timeNow, handler_test.putMock.
  rewrite He. cbn [handler_test.mock handler_test.ticks handler_test.err
    handler_test.posts].
  eexists _, _. split; [reflexivity |].
  cbn [handler_test.mock handler_test.err handler_test.posts].
  rewrite lookup_insert_eq. by repeat split.
Qed.

End MockFacts.

(** ** The further properties at sample inputs *)

Section MoreSamples.

Import database handler.

Local Abbreviation memoryStore := (MemoryStore_Store tickingClock noUnicode).
Local Abbreviation Serve := (ServeHTTP (Store_S := memoryStore) decodeTitle).

Lemma denotes_1 : denotesInt64 "1" 1.
Proof. by split. Qed.

Lemma denotes_plus_01 : denotesInt64 "+01" 1.
Proof. by split. Qed.

Lemma denotes_3 : denotesInt64 "3" (nextID (store twoPosts)).
Proof. by split. Qed.

Lemma get_requests_only_read_witness :
  Method (bareRequest "GET" "/posts/1") = "GET" /\
  (Serve (bareRequest "GET" "/posts/1") twoPosts).2 = twoPosts.
Proof.
  split; [reflexivity |].
  apply (get_requests_only_read tickingClock noUnicode decodeTitle
           (bareRequest "GET" "/posts/1") twoPosts eq_refl).
Defined.

Lemma delete_request_removes_witness :
  Method (bareRequest "DELETE" "/posts/1") = "DELETE" /\
  denotesInt64 "1" 1 /\ denotesInt64 "+01" 1 /\
  is_Some (posts (store twoPosts) !! 1) /\
  exists w1,
    StatusCode (Serve (bareRequest "DELETE" "/posts/1") twoPosts).1 = 204 /\
    (Serve (bareRequest "DELETE" "/posts/1") twoPosts).2 = w1 /\
    StatusCode (Serve (bareRequest "GET" "/posts/+01") w1).1 = 404.
Proof.
  assert (is_Some (posts (store twoPosts) !! 1)) as Hlive by (by eexists).
  split; [reflexivity |]. split; [exact denotes_1 |].
  split; [exact denotes_plus_01 |]. split; [exact Hlive |].
  destruct (delete_request_removes tickingClock noUnicode decodeTitle
              (bareRequest "DELETE" "/posts/1") (bareRequest "GET" "/posts/+01")
              "1" "+01" 1 twoPosts eq_refl eq_refl denotes_1 Hlive
              (or_introl eq_refl) eq_refl denotes_plus_01)
    as (w1 & H1 & _ & _ & H2 & _).
  exists w1. rewrite H1. by repeat split.
Defined.

Lemma put_request_updates_witness :
  let r := {| Method := "PUT"; Path := "/posts/1"; Query := ∅; Body := "New" |} in
  Method r = "PUT" /\ denotesInt64 "1" 1 /\
  (exists post, decodeTitle (Body r) = Some post /\
     Title post <> "" /\ Content post <> "") /\
  (exists old, posts (store twoPosts) !! 1 = Some old /\
     exists p w1,
       Serve r twoPosts = (writeJSON StatusOK (JSONPost p), w1) /\
       Title p = "New" /\ ID p = ID old /\ CreatedAt p = CreatedAt old /\
       Serve (bareRequest "GET" "/posts/1") w1 =
         (writeJSON StatusOK (JSONPost p), w1)).
Proof.
  intros r. split; [reflexivity |]. split; [exact denotes_1 |].
  split; [eexists; split; [reflexivity | by split] |].
  eexists. split; [reflexivity |].
  destruct (put_request_updates tickingClock noUnicode decodeTitle
              r (bareRequest "GET" "/posts/1") "1" "1" 1 _ _ twoPosts
              eq_refl eq_refl denotes_1 eq_refl
              ltac:(discriminate) ltac:(discriminate) eq_refl
              eq_refl eq_refl denotes_1)
    as (p & w1 & H1 & H2 & _ & _ & _ & H3 & H4 & _ & H5).
  exists p, w1. by repeat split.
Defined.

Lemma list_request_selects_witness :
  Method (bareRequest "GET" "/posts/") = "GET" /\
  Path (bareRequest "GET" "/posts/") = "/posts/" /\
  exists ps,
    Serve (bareRequest "GET" "/posts/") twoPosts =
      (writeJSON StatusOK (JSONPosts ps), twoPosts) /\
    ps ≡ₚ (map_to_list (posts (store twoPosts))).*2.
Proof.
  split; [reflexivity |]. split; [reflexivity |].
  destruct (list_request_selects tickingClock noUnicode decodeTitle
              (bareRequest "GET" "/posts/") twoPosts eq_refl eq_refl)
    as (ps & H1 & _ & H2).
  exists ps. split; [exact H1 |]. apply H2. by left.
Defined.

Lemma item_path_other_method_witness :
  Path (bareRequest "POST" "/posts/1") = "/posts/" +:+ "1" /\
  denotesInt64 "1" 1 /\
  Method (bareRequest "POST" "/posts/1") <> "GET" /\
  Method (bareRequest "POST" "/posts/1") <> "PUT" /\
  Method (bareRequest "POST" "/posts/1") <> "DELETE" /\
  Serve (bareRequest "POST" "/posts/1") twoPosts =
    (http_Error "Method not allowed" StatusMethodNotAllowed, twoPosts).
Proof.
  split; [reflexivity |]. split; [exact denotes_1 |].
  split; [discriminate |]. split; [discriminate |]. split; [discriminate |].
  apply (item_path_other_method (Store_S := memoryStore) decodeTitle
           (bareRequest "POST" "/posts/1") "1" 1 twoPosts 0
           eq_refl denotes_1
           ltac:(discriminate) ltac:(discriminate) ltac:(discriminate)).
Defined.

Lemma same_integer_same_answer_witness :
  denotesInt64 "1" 1 /\ denotesInt64 "+01" 1 /\
  Serve (bareRequest "GET" "/posts/1") twoPosts =
  Serve (bareRequest "GET" "/posts/+01") twoPosts.
Proof.
  split; [exact denotes_1 |]. split; [exact denotes_plus_01 |].
  apply (same_integer_same_answer (Store_S := memoryStore) decodeTitle
           (bareRequest "GET" "/posts/1") (bareRequest "GET" "/posts/+01")
           "1" "+01" 1 twoPosts eq_refl eq_refl eq_refl eq_refl
           denotes_1 denotes_plus_01).
Defined.

Lemma server_fields_of_draft_ignored_witness :
  let forged :=
    {| ID := 55; Title := "Go Basics"; Content := "intro"; Category := "Tech";
       Tags := []; CreatedAt := 7; UpdatedAt := 9 |} in
  Title goBasics = Title forged /\ Content goBasics = Content forged /\
  Category goBasics = Category forged /\ Tags goBasics = Tags forged /\
  MemoryStore_CreatePost tickingClock goBasics twoPosts
  = MemoryStore_CreatePost tickingClock forged twoPosts.
Proof.
  intros forged. do 4 (split; [reflexivity |]).
  apply (server_fields_of_draft_ignored tickingClock goBasics forged 1 twoPosts
           eq_refl eq_refl eq_refl eq_refl).
Defined.

Lemma counter_wraps_around_witness :
  nextID (store lastCounter) = maxInt64 /\
  createdIDs
    (run tickingClock noUnicode [OpCreate goBasics; OpCreate cooking]
       lastCounter).1 = [maxInt64; minInt64].
Proof.
  split; [reflexivity |].
  apply (counter_wraps_around tickingClock noUnicode goBasics cooking
           lastCounter eq_refl).
Defined.

Lemma collection_size_witness :
  wellFormed tickingClock twoPosts /\
  nextID (store twoPosts) +
    Z.of_nat (creates [OpDelete 1; OpCreate goBasics]) <= maxInt64 /\
  (size (posts (store (run tickingClock noUnicode
                         [OpDelete 1; OpCreate goBasics] twoPosts).2)) +
   deletions (run tickingClock noUnicode
                [OpDelete 1; OpCreate goBasics] twoPosts).1)%nat =
  (size (posts (store twoPosts)) +
   creates [OpDelete 1; OpCreate goBasics])%nat.
Proof.
  assert (nextID (store twoPosts) +
    Z.of_nat (creates [OpDelete 1; OpCreate goBasics]) <= maxInt64) as Hk by done.
  split; [exact twoPosts_wellFormed |]. split; [exact Hk |].
  apply (collection_size tickingClock noUnicode [OpDelete 1; OpCreate goBasics]
           twoPosts twoPosts_wellFormed Hk).
Defined.

Lemma mock_create_stamps_once_witness :
  handler_test.err (handler_test.mock handler_test.newMockWorld) = None /\
  exists p w1,
    handler_test.mockStore_CreatePost tickingClock goBasics
      handler_test.newMockWorld = (Ok 1, w1) /\
    handler_test.mockStore_GetPost 1 w1 = (Ok p, w1) /\
    CreatedAt p = UpdatedAt p.
Proof.
  split; [reflexivity |].
  destruct (mock_create_stamps_once tickingClock goBasics
              handler_test.newMockWorld eq_refl)
    as (p & w1 & H1 & H2 & _ & _ & _ & _ & _ & _ & H3).
  exists p, w1. by repeat split.
Defined.

End MoreSamples.

(** ** More on the search *)

Section SearchFacts.

Import database.

Variable mapUnicodeToLower : string -> string.

(** X17: in a store that keeps every post under its own identifier, as the
    stores built from a new one do, a list holds no two posts with the same
    identifier, in whatever order the map is visited and for every term. *)
Theorem listed_ids_are_distinct
    (order : gmap Z Post -> list (Z * Post)) (term : string) (w : World) :
  keyedByID w ->
  order (posts (store w)) ≡ₚ map_to_list (posts (store w)) ->
  exists ps,
    GetAllPosts_in mapUnicodeToLower order term w = (Ok ps, w) /\
    NoDup (ID <$> ps).
Proof.
  intros Hkey Hperm. rewrite GetAllPosts_in_eq. eexists. split; [reflexivity |].
  by apply GetAllPosts_ids_distinct.
Qed.

(** X18: on ASCII strings the condition of the search holds exactly when the
    term is empty or some substring of the title, of the content or of the
    category is the term up to the case of its letters. *)
Theorem search_ignores_ascii_case (term : string) (p : Post) :
  strings.isASCII term = true ->
  strings.isASCII (Title p) = true ->
  strings.isASCII (Content p) = true ->
  strings.isASCII (Category p) = true ->
  matches mapUnicodeToLower term p = true <->
  term = "" \/ occursIgnoringCase term (Title p) \/
  occursIgnoringCase term (Content p) \/ occursIgnoringCase term (Category p).
Proof.
  intros Hterm Ht Hc Hg. rewrite matches_selected. unfold selected.
  by rewrite !(caseInsensitiveSubstring_ascii mapUnicodeToLower term).
Qed.

End SearchFacts.

Section SearchSamples.

Import database.

Lemma listed_ids_are_distinct_witness :
  keyedByID twoPosts /\
  map_to_list (posts (store twoPosts)) ≡ₚ map_to_list (posts (store twoPosts)) /\
  exists ps,
    GetAllPosts_in noUnicode map_to_list "o" twoPosts = (Ok ps, twoPosts) /\
    NoDup (ID <$> ps).
Proof.
  assert (keyedByID twoPosts) as Hkey by apply twoPosts_wellFormed.
  split; [exact Hkey |]. split; [reflexivity |].
  apply (listed_ids_are_distinct noUnicode map_to_list "o" twoPosts Hkey
           (reflexivity _)).
Defined.

Lemma search_ignores_ascii_case_witness :
  strings.isASCII "TECH" = true /\
  strings.isASCII (Title goBasics) = true /\
  strings.isASCII (Content goBasics) = true /\
  strings.isASCII (Category goBasics) = true /\
  (matches noUnicode "TECH" goBasics = true <->
   "TECH" = "" \/ occursIgnoringCase "TECH" (Title goBasics) \/
   occursIgnoringCase "TECH" (Content goBasics) \/
   occursIgnoringCase "TECH" (Category goBasics)).
Proof.
  do 4 (split; [reflexivity |]).
  apply (search_ignores_ascii_case noUnicode "TECH" goBasics
           eq_refl eq_refl eq_refl eq_refl).
Defined.

End SearchSamples.

(** ** The search and the update, as the code has them *)

Section SearchAndUpdate.

Import database.

Variable clock : nat -> Time.
Variable mapUnicodeToLower : string -> string.

#[local] Existing Instance selected_dec.

(** C5, as amended: in whatever order the map is visited, a list returns no
    error and a sequence that holds, as many times as they are stored, the
    live posts of which the title, the content or the category contains the
    term once both are lowered by [strings.ToLower].  When the term and the
    three fields of a post are ASCII, the post is listed exactly when the
    term is empty or a substring of one of the fields is the term up to the
    case of its letters.  With the empty term the sequence holds all the
    live posts, each once, and when no live post is selected it is empty. *)
Theorem GetAllPosts_selects
    (order : gmap Z Post -> list (Z * Post)) (term : string) (w : World) :
  order (posts (store w)) ≡ₚ map_to_list (posts (store w)) ->
  exists ps,
    GetAllPosts_in mapUnicodeToLower order term w = (Ok ps, w) /\
    ps ≡ₚ filter (selected mapUnicodeToLower term)
            ((map_to_list (posts (store w))).*2) /\
    (forall p, p ∈ ps <->
       (exists id, posts (store w) !! id = Some p) /\
       selected mapUnicodeToLower term p) /\
    (forall p,
       strings.isASCII term = true ->
       strings.isASCII (Title p) = true ->
       strings.isASCII (Content p) = true ->
       strings.isASCII (Category p) = true ->
       (p ∈ ps <->
        (exists id, posts (store w) !! id = Some p) /\
        (term = "" \/ occursIgnoringCase term (Title p) \/
         occursIgnoringCase term (Content p) \/
         occursIgnoringCase term (Category p)))) /\
    (term = "" -> ps ≡ₚ (map_to_list (posts (store w))).*2) /\
    ((forall id p, posts (store w) !! id = Some p ->
        ~ selected mapUnicodeToLower term p) -> ps = []).
Proof.
  intros Hperm. rewrite GetAllPosts_in_eq, collect_filter.
  eexists. split; [reflexivity |].
  assert (forall p,
    p ∈ filter (selected mapUnicodeToLower term) ((order (posts (store w))).*2)
    <-> (exists id, posts (store w) !! id = Some p) /\
        selected mapUnicodeToLower term p) as Hmem.
  { intros p. rewrite list_elem_of_filter, list_elem_of_fmap. split.
    - intros [Hs ([id q] & -> & Hin)]. split; [| done].
      exists id. rewrite Hperm in Hin. by apply elem_of_map_to_list in Hin.
    - intros [[id Hid] Hs]. split; [done |].
      exists (id, p). split; [done |]. rewrite Hperm.
      by apply elem_of_map_to_list. }
  split; [by rewrite Hperm |]. split; [exact Hmem |]. split; [| split].
  - intros p Hterm Ht Hc Hg. rewrite Hmem. unfold selected.
    by rewrite !(caseInsensitiveSubstring_ascii mapUnicodeToLower term).
  - intros ->. by rewrite filter_selected_empty, Hperm.
  - intros Hno.
    destruct (filter _ _) as [|p ps] eqn:Hf; [done |].
    assert (p ∈ p :: ps) as Hin by apply list_elem_of_here.
    apply Hmem in Hin as [[id Hid] Hs]. by apply Hno in Hid.
Qed.


End SearchAndUpdate.

Section SearchAndUpdateSamples.

Import database.

(** The two bytes are lowered to the same three bytes. *)
Lemma ToLower_outside_UTF8 :
  strings.ToLower outsideUTF8ToLower byteFF = runeErrorBytes /\
  strings.ToLower outsideUTF8ToLower byteFE = runeErrorBytes.
Proof. by split. Qed.

Ltac no_occurrence :=
  let Hs := fresh "Hs" in
  intros (pre & mid & post & Heq & Hf);
  inversion Hf as [|c d s t Hs Hf' E1 E2]; subst;
  inversion Hf'; subst;
  destruct pre as [|a pre]; cbn in Heq;
  [ try discriminate; injection Heq as Hc _; subst c;
    destruct Hs as [Hs | [[Hs _] | [Hs _]]]; vm_compute in Hs; discriminate
  | try discriminate; injection Heq as _ Heq;
    destruct pre; cbn in Heq; discriminate ].

(** C5, as stated, fails: on the store that holds one post whose title is
    the byte [FE], a list for the term [FF] returns that post, although the
    term is not empty and no field of the post holds the term in any case:
    [strings.ToLower] reads both bytes, which belong to no UTF-8 encoding,
    as the replacement character. *)
Lemma list_returns_a_post_without_the_term :
  exists p,
    posts (store onePost) !! 1 = Some p /\
    (MemoryStore_GetAllPosts outsideUTF8ToLower byteFF onePost).1 = Ok [p] /\
    Title p = byteFE /\ Content p = "x" /\ Category p = "" /\
    byteFF <> "" /\
    ~ occursIgnoringCase byteFF (Title p) /\
    ~ occursIgnoringCase byteFF (Content p) /\
    ~ occursIgnoringCase byteFF (Category p).
Proof.
  eexists. split; [reflexivity |]. split; [reflexivity |].
  cbn [Title Content Category]. do 3 (split; [reflexivity |]).
  split; [discriminate |]. split; [| split].
  - unfold byteFF, byteFE. no_occurrence.
  - unfold byteFF. no_occurrence.
  - unfold byteFF. no_occurrence.
Qed.

Lemma GetAllPosts_selects_witness :
  map_to_list (posts (store twoPosts)) ≡ₚ map_to_list (posts (store twoPosts)) /\
  exists ps,
    GetAllPosts_in noUnicode map_to_list "TECH" twoPosts = (Ok ps, twoPosts) /\
    forall p,
      strings.isASCII (Title p) = true ->
      strings.isASCII (Content p) = true ->
      strings.isASCII (Category p) = true ->
      (p ∈ ps <->
       (exists id, posts (store twoPosts) !! id = Some p) /\
       ("TECH" = "" \/ occursIgnoringCase "TECH" (Title p) \/
        occursIgnoringCase "TECH" (Content p) \/
        occursIgnoringCase "TECH" (Category p))).
Proof.
  split; [reflexivity |].
  destruct (GetAllPosts_selects noUnicode map_to_list "TECH" twoPosts
              (reflexivity _)) as (ps & H1 & _ & _ & H2 & _).
  exists ps. split; [exact H1 |]. intros p. by apply H2.
Defined.



End SearchAndUpdateSamples.

(** ** The handler's create and the requests in between *)

Section CreateBetween.

Import database handler.

Context {S : Type} {Store_S : Store S}.
Variable jsonDecode : string -> option Post.

(** With nothing in between, this is [CreatePost]. *)
Lemma CreatePost_between_nothing (r : Request) (w : S) :
  CreatePost jsonDecode r w = CreatePost_between jsonDecode (ret tt) r w.
Proof.
  unfold CreatePost, CreatePost_between.
  destruct (jsonDecode (Body r)) as [post|]; [| done].
  destruct (_ || _); [done |]. unfold bind, ret.
  destruct (database.CreatePost post w) as [[id|e] w1]; done.
Qed.


End CreateBetween.

Section CreateBetweenOnMemoryStore.

Import database handler.

Variable clock : nat -> Time.
Variable mapUnicodeToLower : string -> string.
Variable jsonDecode : string -> option Post.

Local Abbreviation memoryStore := (MemoryStore_Store clock mapUnicodeToLower).
Local Abbreviation Serve := (ServeHTTP (Store_S := memoryStore) jsonDecode).

(** The create on the in-memory store: 201 and the post found under the new
    identifier after the requests in between, 500 when none is found. *)
Lemma mem_CreatePost_between
    (between : M World unit) (r : Request) (post : Post) (w : World) :
  jsonDecode (Body r) = Some post -> Title post <> "" -> Content post <> "" ->
  CreatePost_between (Store_St := memoryStore) jsonDecode between r w =
    (match
       posts (store (between (MemoryStore_CreatePost clock post w).2).2)
         !! nextID (store w)
     with
     | Some p => writeJSON StatusCreated (JSONPost p)
     | None =>
         http_Error "Failed to retrieve created post" StatusInternalServerError
     end, (between (MemoryStore_CreatePost clock post w).2).2).
Proof.
  intros Hd Ht Hc. apply String.eqb_neq in Ht, Hc.
  unfold CreatePost_between. rewrite Hd, Ht, Hc. cbn [orb]. unfold bind.
  change (database.CreatePost post w) with (MemoryStore_CreatePost clock post w).
  rewrite CreatePost_eq. cbn [snd].
  destruct (between _) as [[] w2]. cbn [snd].
  change (database.GetPost (nextID (store w)) w2)
    with (MemoryStore_GetPost (nextID (store w)) w2).
  rewrite GetPost_eq. by destruct (posts (store w2) !! nextID (store w)).
Qed.



(** X19: a create with a body that passes the validation, when another
    request deletes the new post between its two store calls, is answered
    with 500, [Failed to retrieve created post]; the post is not in the
    store and its identifier has been used. *)
Theorem create_fails_after_a_delete_in_between
    (r : Request) (post : Post) (w : World) :
  jsonDecode (Body r) = Some post -> Title post <> "" -> Content post <> "" ->
  exists w2,
    CreatePost_between (Store_St := memoryStore) jsonDecode
      (discard (MemoryStore_DeletePost (nextID (store w)))) r w =
      (http_Error "Failed to retrieve created post" StatusInternalServerError,
       w2) /\
    posts (store w2) !! nextID (store w) = None /\
    nextID (store w2) = wrap64 (nextID (store w) + 1).
Proof.
  intros Hd Ht Hc.
  rewrite (mem_CreatePost_between _ r post w) by done.
  assert ((discard (MemoryStore_DeletePost (nextID (store w)))
             (MemoryStore_CreatePost clock post w).2).2 =
          {| store := {| posts := delete (nextID (store w))
                                    (posts (store (MemoryStore_CreatePost clock post w).2));
                         nextID := wrap64 (nextID (store w) + 1) |};
             ticks := Datatypes.S (Datatypes.S (ticks w)) |}) as ->.
  { unfold discard, bind, ret.
    erewrite DeletePost_Some; [by rewrite CreatePost_eq |].
    rewrite CreatePost_eq. cbn [snd store posts]. apply lookup_insert_eq. }
  cbn [store posts nextID]. rewrite lookup_delete_eq.
  eexists. split; [reflexivity |]. cbn [store posts nextID].
  split; [apply lookup_delete_eq | done].
Qed.

End CreateBetweenOnMemoryStore.

(** ** The store with its posts behind pointers *)

Section PointerFacts.

Import pointers.

Variable clock : nat -> Time.
Variable mapUnicodeToLower : string -> string.

Local Abbreviation step := (pointers.step clock mapUnicodeToLower).
Local Abbreviation run := (pointers.run clock mapUnicodeToLower).
Local Abbreviation viewOps := (pointers.viewOps clock mapUnicodeToLower).
Local Abbreviation freshDrafts := (pointers.freshDrafts clock mapUnicodeToLower).
Local Abbreviation vstep := (database.step clock mapUnicodeToLower).
Local Abbreviation vrun := (database.run clock mapUnicodeToLower).

Lemma writeAt_eq (h : loc -> Post) (l : loc) (p : Post) : writeAt h l p l = p.
Proof. unfold writeAt. by rewrite decide_True. Qed.

Lemma writeAt_ne (h : loc -> Post) (l l' : loc) (p : Post) :
  l' <> l -> writeAt h l p l' = h l'.
Proof. intros H. unfold writeAt. by rewrite decide_False. Qed.

Lemma view_NewMemory (h : loc -> Post) : view (NewMemory h) = database.NewWorld.
Proof. unfold view, NewMemory. cbn. by rewrite fmap_empty. Qed.

Lemma view_lookup (m : Memory) (id : Z) :
  database.posts (database.store (view m)) !! id = heap m <$> posts m !! id.
Proof. unfold view. cbn. apply lookup_fmap. Qed.

(** A write at an address that is not stored is not seen. *)
Lemma fmap_writeAt_unstored (m : Memory) (l : loc) (p : Post) :
  unstored m l -> writeAt (heap m) l p <$> posts m = heap m <$> posts m.
Proof.
  intros Hl. apply map_fmap_ext. intros id l' Hid.
  apply writeAt_ne. intros ->. by apply (Hl id).
Qed.

(** A write at the address stored under an identifier that is stored under
    no other is seen under that identifier only. *)
Lemma fmap_writeAt_stored (m : Memory) (id : Z) (l : loc) (p : Post) :
  unshared m -> posts m !! id = Some l ->
  writeAt (heap m) l p <$> posts m = <[id := p]> (heap m <$> posts m).
Proof.
  intros Hun Hid. apply map_eq. intros id'. rewrite lookup_fmap.
  destruct (decide (id' = id)) as [-> | Hne].
  - rewrite lookup_insert_eq, Hid. cbn. by rewrite writeAt_eq.
  - rewrite lookup_insert_ne, lookup_fmap by done.
    destruct (posts m !! id') as [l'|] eqn:Hid'; [| done]. cbn.
    rewrite writeAt_ne; [done |]. intros ->. by apply Hne, (Hun id' id l).
Qed.

(** One operation on pointers, seen as an operation on posts: when no
    pointer is stored twice and a create is given a pointer that is not
    stored, the store an observer sees afterwards is the one the operation
    on the pointed-to posts gives, and again no pointer is stored twice. *)
Lemma step_view (op : Op) (m : Memory) :
  unshared m -> freshDraft m op ->
  view (step op m) = (vstep (viewOp m op) (view m)).2 /\
  unshared (step op m).
Proof.
  intros Hun Hfresh. destruct op as [l|id|term|id l|id]; cbn [pointers.step viewOp].
  - cbn in Hfresh. split.
    + rewrite step_create, CreatePost_eq. unfold view, CreatePost.
      cbn [snd heap posts nextID ticks database.store database.posts
           database.nextID database.ticks]. do 2 f_equal.
      rewrite fmap_insert, writeAt_eq. f_equal.
      by apply fmap_writeAt_unstored.
    + intros id1 id2 l0. unfold CreatePost. cbn [snd posts].
      intros H1 H2.
      destruct (decide (id1 = nextID m)) as [-> | Hn1];
        destruct (decide (id2 = nextID m)) as [-> | Hn2]; [done | | |].
      * rewrite lookup_insert_eq in H1. rewrite lookup_insert_ne in H2 by done.
        injection H1 as <-. by destruct (Hfresh id2).
      * rewrite lookup_insert_eq in H2. rewrite lookup_insert_ne in H1 by done.
        injection H2 as <-. by destruct (Hfresh id1).
      * rewrite lookup_insert_ne in H1, H2 by done. by apply (Hun id1 id2 l0).
  - rewrite step_get. unfold GetPost. by destruct (posts m !! id).
  - by rewrite step_list.
  - rewrite step_update. unfold UpdatePost.
    destruct (posts m !! id) as [e|] eqn:He.
    + split.
      * rewrite (UpdatePost_Some _ _ _ (heap m e))
          by (by rewrite view_lookup, He).
        cbv zeta. unfold view.
        cbn [snd heap posts nextID ticks database.store database.posts
             database.nextID database.ticks]. do 2 f_equal.
        rewrite (insert_id (posts m) id e He).
        by apply fmap_writeAt_stored.
      * cbn [snd]. intros id1 id2 l0. cbn [posts].
        rewrite (insert_id (posts m) id e He). apply Hun.
    + split; [| done]. rewrite UpdatePost_None; [done |].
      by rewrite view_lookup, He.
  - rewrite step_delete. unfold DeletePost.
    destruct (posts m !! id) as [e|] eqn:He.
    + split.
      * rewrite (DeletePost_Some _ (heap m e)) by (by rewrite view_lookup, He).
        unfold view.
        cbn [snd heap posts nextID ticks database.store database.posts
             database.nextID database.ticks]. by rewrite fmap_delete.
      * cbn [snd]. intros id1 id2 l0. cbn [posts]. intros H1 H2.
        apply lookup_delete_Some in H1 as [_ H1].
        apply lookup_delete_Some in H2 as [_ H2]. by apply (Hun id1 id2 l0).
    + split; [| done]. rewrite DeletePost_None; [done |].
      by rewrite view_lookup, He.
Qed.

Lemma viewOp_isCreate (m : Memory) (op : Op) :
  database.isCreate (viewOp m op) = isCreate op.
Proof. by destruct op. Qed.

Lemma viewOps_creates (ops : list Op) (m : Memory) :
  database.creates (viewOps ops m) = creates ops.
Proof.
  revert m. induction ops as [|op ops IH]; intros m; [done |].
  cbn [pointers.viewOps]. rewrite creates_cons, viewOp_isCreate, IH.
  unfold creates. rewrite filter_cons. by destruct (isCreate op).
Qed.

(** A run on pointers, seen as a run on posts. *)
Lemma run_view (ops : list Op) (m : Memory) :
  unshared m -> freshDrafts ops m ->
  view (run ops m) = (vrun (viewOps ops m) (view m)).2 /\
  unshared (run ops m).
Proof.
  revert m. induction ops as [|op ops IH]; intros m Hun Hfresh; [done |].
  destruct Hfresh as [Hop Hrest].
  destruct (step_view op m Hun Hop) as [Hv Hun1].
  cbn [pointers.run pointers.viewOps]. rewrite run_world_cons, <- Hv.
  by apply IH.
Qed.

End PointerFacts.

Section PointerStoreProperties.

Import pointers.

Variable clock : nat -> Time.
Variable mapUnicodeToLower : string -> string.

Local Abbreviation step := (pointers.step clock mapUnicodeToLower).
Local Abbreviation run := (pointers.run clock mapUnicodeToLower).
Local Abbreviation viewOps := (pointers.viewOps clock mapUnicodeToLower).
Local Abbreviation freshDrafts := (pointers.freshDrafts clock mapUnicodeToLower).
Local Abbreviation vstep := (database.step clock mapUnicodeToLower).
Local Abbreviation vrun := (database.run clock mapUnicodeToLower).

(** X20: the create stores the pointer it is given and writes through it: a
    pointer given to two creates is stored under both identifiers, and the
    post a get of the first identifier then returns carries the second
    identifier and the instants of the second create.  The counter is not at
    the last [int64]. *)
Theorem reused_pointer_is_rewritten (l : loc) (m : Memory) :
  minInt64 <= nextID m < maxInt64 ->
  let m1 := (CreatePost clock l m).2 in
  let m2 := (CreatePost clock l m1).2 in
  (CreatePost clock l m).1 = Ok (nextID m) /\
  (CreatePost clock l m1).1 = Ok (nextID m + 1) /\
  GetPost (nextID m) m2 = (Ok l, m2) /\
  GetPost (nextID m + 1) m2 = (Ok l, m2) /\
  ID (heap m2 l) = nextID m + 1 /\
  CreatedAt (heap m2 l) = clock (Datatypes.S (Datatypes.S (ticks m))).
Proof.
  intros Hn m1 m2. unfold m2, m1, GetPost, CreatePost.
  cbn [fst snd heap posts nextID ticks].
  rewrite wrap64_small by (unfold minInt64, maxInt64 in *; lia).
  rewrite lookup_insert_eq, lookup_insert_ne by lia.
  rewrite lookup_insert_eq, !writeAt_eq. by repeat split.
Qed.

(** X21: when no pointer is stored under two identifiers and every create of
    a run is given a pointer that is not stored then, as the handler does
    with the post it declares for each request, the store behind pointers
    shows an observer what the store of posts shows after the same
    operations on the pointed-to drafts: the same post or the same error
    for every get, the same counter and the same number of clock readings;
    and again no pointer is stored twice. *)
Theorem pointer_store_shows_the_store_of_posts (ops : list Op) (m : Memory) :
  unshared m -> freshDrafts ops m ->
  let w := (vrun (viewOps ops m) (view m)).2 in
  view (run ops m) = w /\
  unshared (run ops m) /\
  forall id,
    (database.MemoryStore_GetPost id w).1 =
      match (GetPost id (run ops m)).1 with
      | Ok post => Ok (heap (run ops m) post)
      | Err e => Err e
      end.
Proof.
  intros Hun Hfresh w. destruct (run_view clock mapUnicodeToLower ops m Hun Hfresh)
    as [Hv Hun'].
  split; [exact Hv |]. split; [exact Hun' |]. intros id.
  rewrite GetPost_eq. cbn [fst]. unfold w. rewrite <- Hv, view_lookup.
  unfold GetPost. by destruct (posts (run ops m) !! id).
Qed.

(** X9: along every sequence of operations on a new store that gives each
    create a pointer that is not stored then and makes fewer than [2^63 - 1]
    creates, the post behind a stored pointer carries the identifier it is
    stored under, this identifier is one of those the creates returned, and,
    when the clock never runs backwards, its creation is not after its last
    update. *)
Theorem live_posts_invariant
    (h : loc -> Post) (ops : list Op) (id : Z) (l : loc) :
  freshDrafts ops (NewMemory h) ->
  Z.of_nat (creates ops) < maxInt64 ->
  posts (run ops (NewMemory h)) !! id = Some l ->
  let p := heap (run ops (NewMemory h)) l in
  ID p = id /\ 1 <= id <= Z.of_nat (creates ops) /\
  (monotone clock -> CreatedAt p <= UpdatedAt p).
Proof.
  intros Hfresh Hk Hl p.
  destruct (run_view clock mapUnicodeToLower ops (NewMemory h)) as [Hv _];
    [by intros id1 id2 l0 H1 | done |].
  rewrite view_NewMemory in Hv.
  destruct (run_wellFormed clock mapUnicodeToLower
              (viewOps ops (NewMemory h)) database.NewWorld)
    as [([Hn Hlive] & Hkey & Hst) Hnext].
  { apply NewWorld_wellFormed. }
  { rewrite viewOps_creates. cbn. lia. }
  rewrite <- Hv in Hlive, Hkey, Hst, Hnext. rewrite viewOps_creates in Hnext.
  assert (database.posts (database.store (view (run ops (NewMemory h)))) !! id
          = Some p) as Hp.
  { rewrite view_lookup, Hl. done. }
  split; [by apply Hkey |]. split.
  - specialize (Hlive id (ex_intro _ p Hp)). rewrite Hnext in Hlive.
    cbn in Hlive. lia.
  - intros Hmono. destruct (Hst id p Hp) as (i & j & Hij & -> & ->).
    apply Hmono. lia.
Qed.

(** X10: when no pointer is stored under two identifiers and a create is
    given a pointer that is not stored, an operation leaves alone every post
    it does not aim at: after an update or a delete of another identifier, a
    get, a list, or a create whose counter is another identifier, an
    observer finds under an identifier the post there was, or none as
    before. *)
Theorem other_posts_untouched (op : Op) (id : Z) (m : Memory) :
  unshared m -> freshDraft m op ->
  ~ targets (viewOp m op) id ->
  (isCreate op = true -> nextID m <> id) ->
  heap (step op m) <$> posts (step op m) !! id = heap m <$> posts m !! id.
Proof.
  intros Hun Hfresh Ht Hc.
  destruct (step_view clock mapUnicodeToLower op m Hun Hfresh) as [Hv _].
  rewrite <- !view_lookup, Hv.
  apply step_lookup_other; [done |]. by rewrite viewOp_isCreate.
Qed.

(** X14: the creation instant is set once: along a sequence of operations
    on a well-formed store that gives each create a pointer that is not
    stored then and keeps the counter an [int64], the post found under an
    identifier before and after has kept its identifier and its creation
    instant, and, when the clock never runs backwards, its update instant
    has not moved backwards. *)
Theorem creation_instant_is_kept
    (ops : list Op) (id : Z) (l l' : loc) (m : Memory) :
  unshared m -> wellFormed clock (view m) -> freshDrafts ops m ->
  nextID m + Z.of_nat (creates ops) <= maxInt64 ->
  posts m !! id = Some l ->
  posts (run ops m) !! id = Some l' ->
  ID (heap (run ops m) l') = ID (heap m l) /\
  CreatedAt (heap (run ops m) l') = CreatedAt (heap m l) /\
  (monotone clock -> UpdatedAt (heap m l) <= UpdatedAt (heap (run ops m) l')).
Proof.
  intros Hun Hw Hfresh Hk Hl Hl'.
  destruct (run_view clock mapUnicodeToLower ops m Hun Hfresh) as [Hv _].
  apply (run_keeps_creation clock mapUnicodeToLower (viewOps ops m) id _ _
           (view m)).
  - done.
  - by rewrite viewOps_creates.
  - by rewrite view_lookup, Hl.
  - by rewrite <- Hv, view_lookup, Hl'.
Qed.

End PointerStoreProperties.

(** ** The revised properties at sample inputs *)

Section RevisedSamples.

Import database handler.

Local Abbreviation memoryStore := (MemoryStore_Store tickingClock noUnicode).



Lemma create_fails_after_a_delete_in_between_witness :
  let r := {| Method := "POST"; Path := "/posts/"; Query := ∅; Body := helloBody |} in
  let post := {| ID := 0; Title := "Hello"; Content := "World"; Category := "";
                 Tags := []; CreatedAt := 0; UpdatedAt := 0 |} in
  decodeHello (Body r) = Some post /\ Title post <> "" /\ Content post <> "" /\
  exists w2,
    CreatePost_between (Store_St := memoryStore) decodeHello
      (discard (MemoryStore_DeletePost 3)) r twoPosts =
      (http_Error "Failed to retrieve created post" 500, w2) /\
    posts (store w2) !! 3 = None.
Proof.
  intros r post. split; [reflexivity |]. split; [discriminate |].
  split; [discriminate |].
  destruct (create_fails_after_a_delete_in_between tickingClock noUnicode
              decodeHello r post twoPosts
              eq_refl ltac:(discriminate) ltac:(discriminate))
    as (w2 & H1 & H2 & _).
  exists w2. by split.
Defined.


End RevisedSamples.

Section PointerSamples.

Import pointers.

Lemma sample_creates_fresh :
  pointers.freshDrafts tickingClock noUnicode
    [OpCreate 1%positive; OpCreate 2%positive] sampleMemory.
Proof.
  split; [| split; [| done]].
  - intros id H. cbn in H. by rewrite lookup_empty in H.
  - intros id H. cbn in H. rewrite lookup_insert in H.
    case_decide; [by simplify_eq | by rewrite lookup_empty in H].
Qed.

Lemma sampleMemory_unshared : unshared sampleMemory.
Proof. intros id1 id2 l H. cbn in H. by rewrite lookup_empty in H. Qed.

Lemma twoPointers_unshared : unshared twoPointers.
Proof.
  apply (run_view tickingClock noUnicode); [apply sampleMemory_unshared |].
  apply sample_creates_fresh.
Qed.

Lemma twoPointers_wellFormed : wellFormed tickingClock (view twoPointers).
Proof.
  unfold twoPointers.
  destruct (run_view tickingClock noUnicode
              [OpCreate 1%positive; OpCreate 2%positive] sampleMemory
              sampleMemory_unshared sample_creates_fresh) as [-> _].
  apply run_wellFormed; [| done].
  unfold sampleMemory. rewrite view_NewMemory. apply NewWorld_wellFormed.
Qed.

Lemma reused_pointer_is_rewritten_witness :
  minInt64 <= nextID sampleMemory < maxInt64 /\
  let m2 :=
    pointers.run tickingClock noUnicode
      [OpCreate 1%positive; OpCreate 1%positive] sampleMemory in
  GetPost 1 m2 = (Ok 1%positive, m2) /\ ID (heap m2 1%positive) = 2.
Proof.
  assert (minInt64 <= nextID sampleMemory < maxInt64) as Hn by done.
  split; [exact Hn |].
  destruct (reused_pointer_is_rewritten tickingClock 1%positive sampleMemory Hn)
    as (_ & _ & H1 & _ & H2 & _).
  split; [exact H1 | exact H2].
Defined.

Lemma pointer_store_shows_the_store_of_posts_witness :
  unshared sampleMemory /\
  pointers.freshDrafts tickingClock noUnicode
    [OpCreate 1%positive; OpCreate 2%positive] sampleMemory /\
  view twoPointers =
    (database.run tickingClock noUnicode
       (pointers.viewOps tickingClock noUnicode
          [OpCreate 1%positive; OpCreate 2%positive] sampleMemory)
       (view sampleMemory)).2.
Proof.
  split; [exact sampleMemory_unshared |]. split; [exact sample_creates_fresh |].
  apply (pointer_store_shows_the_store_of_posts tickingClock noUnicode
           [OpCreate 1%positive; OpCreate 2%positive] sampleMemory
           sampleMemory_unshared sample_creates_fresh).
Defined.

Lemma live_posts_invariant_witness :
  pointers.freshDrafts tickingClock noUnicode
    [OpCreate 1%positive; OpCreate 2%positive] sampleMemory /\
  Z.of_nat (creates [OpCreate 1%positive; OpCreate 2%positive]) < maxInt64 /\
  posts twoPointers !! 2 = Some 2%positive /\
  ID (heap twoPointers 2%positive) = 2.
Proof.
  assert (Z.of_nat (creates [OpCreate 1%positive; OpCreate 2%positive])
          < maxInt64) as Hk by done.
  split; [exact sample_creates_fresh |]. split; [exact Hk |].
  split; [reflexivity |].
  apply (live_posts_invariant tickingClock noUnicode (fun _ => goBasics)
           [OpCreate 1%positive; OpCreate 2%positive] 2 2%positive
           sample_creates_fresh Hk eq_refl).
Defined.

Lemma other_posts_untouched_witness :
  unshared twoPointers /\
  freshDraft twoPointers (OpDelete 2) /\
  ~ targets (viewOp twoPointers (OpDelete 2)) 1 /\
  (isCreate (OpDelete 2) = true -> nextID twoPointers <> 1) /\
  heap (pointers.step tickingClock noUnicode (OpDelete 2) twoPointers)
    <$> posts (pointers.step tickingClock noUnicode (OpDelete 2) twoPointers) !! 1
  = heap twoPointers <$> posts twoPointers !! 1.
Proof.
  assert (~ targets (viewOp twoPointers (OpDelete 2)) 1) as Ht by (cbn; lia).
  assert (isCreate (OpDelete 2) = true -> nextID twoPointers <> 1) as Hc
    by discriminate.
  split; [exact twoPointers_unshared |]. split; [exact I |].
  split; [exact Ht |]. split; [exact Hc |].
  apply (other_posts_untouched tickingClock noUnicode (OpDelete 2) 1 twoPointers
           twoPointers_unshared I Ht Hc).
Defined.

Lemma creation_instant_is_kept_witness :
  unshared twoPointers /\
  wellFormed tickingClock (view twoPointers) /\
  pointers.freshDrafts tickingClock noUnicode [OpUpdate 1 2%positive] twoPointers /\
  nextID twoPointers + Z.of_nat (creates [OpUpdate 1 2%positive]) <= maxInt64 /\
  posts twoPointers !! 1 = Some 1%positive /\
  posts (pointers.run tickingClock noUnicode [OpUpdate 1 2%positive] twoPointers)
    !! 1 = Some 1%positive /\
  CreatedAt
    (heap (pointers.run tickingClock noUnicode [OpUpdate 1 2%positive] twoPointers)
       1%positive)
  = CreatedAt (heap twoPointers 1%positive).
Proof.
  assert (pointers.freshDrafts tickingClock noUnicode [OpUpdate 1 2%positive]
            twoPointers) as Hf by done.
  assert (nextID twoPointers + Z.of_nat (creates [OpUpdate 1 2%positive])
          <= maxInt64) as Hk by done.
  split; [exact twoPointers_unshared |]. split; [exact twoPointers_wellFormed |].
  split; [exact Hf |]. split; [exact Hk |]. split; [reflexivity |].
  split; [reflexivity |].
  apply (creation_instant_is_kept tickingClock noUnicode [OpUpdate 1 2%positive]
           1 1%positive 1%positive twoPointers twoPointers_unshared
           twoPointers_wellFormed Hf Hk eq_refl eq_refl).
Defined.

End PointerSamples.
